(** * search_excel: the encrypted client directory and its chat gate

    A shallow embedding of [src/index.js] (the bot) and of the exporter's
    [encryptData], with the properties of the specification stated over it.

    - JavaScript strings are sequences of UTF-16 code units ([list N]).
    - A [Buffer] is a [list byte].
    - Code that throws returns in the [result] type; [try]/[catch] is a match
      on it.
    - Module-level variables of the bot ([clients], [fuse],
      [authorizedUsers]), the two files, the messages sent and the lines
      printed are the fields of [world].
    - What the platform provides and the repository does not contain
      (JSON.parse, JSON.stringify, UTF-8 decoding of a Buffer,
      String.prototype.toLowerCase, the Fuse.js engine) is a method of the
      class [Host]; nothing is assumed about those methods. *)

From Stdlib Require Import NArith ZArith List Bool Lia.
From Stdlib.Strings Require Import Ascii Byte.
From Stdlib.Strings Require String.
Import ListNotations String.StringSyntax.

Delimit Scope string_scope with string.

Abbreviation string := String.string.

Set Implicit Arguments.
Set Warnings "-register-all".
Local Open Scope N_scope.

(* ================================================================== *)
(** ** JavaScript strings *)

Module JS.

(** A string is its sequence of UTF-16 code units. *)
Definition jsstring := list N.

(** [a === b] on strings. *)
Fixpoint streq (a b : jsstring) : bool :=
  match a, b with
  | [], [] => true
  | x :: a', y :: b' => (x =? y) && streq a' b'
  | _, _ => false
  end.

(** Code points of a UTF-8 byte sequence, as UTF-16 code units: used for
    the string literals of the source, which this file holds in UTF-8. *)
Fixpoint utf16_of_utf8 (bs : list N) : jsstring :=
  match bs with
  | [] => []
  | b :: r =>
      if b <? 128 then b :: utf16_of_utf8 r
      else if b <? 224 then
        match r with
        | c :: r1 => ((b mod 32) * 64 + c mod 64) :: utf16_of_utf8 r1
        | [] => [65533]
        end
      else if b <? 240 then
        match r with
        | c :: d :: r2 =>
            ((b mod 16) * 4096 + (c mod 64) * 64 + d mod 64) :: utf16_of_utf8 r2
        | _ => [65533]
        end
      else
        match r with
        | c :: d :: e :: r3 =>
            let cp := (b mod 8) * 262144 + (c mod 64) * 4096
                      + (d mod 64) * 64 + e mod 64 in
            let v := cp - 65536 in
            (55296 + v / 1024) :: (56320 + v mod 1024) :: utf16_of_utf8 r3
        | _ => [65533]
        end
  end.

Definition lit (s : string) : jsstring :=
  utf16_of_utf8 (map (fun a => N_of_ascii a) (String.list_ascii_of_string s)).

Arguments lit s%_string.

(** WhiteSpace and LineTerminator of ECMAScript, the code units that
    [String.prototype.trim] strips. *)
Definition isWhiteSpace (c : N) : bool :=
  (c =? 9) || (c =? 10) || (c =? 11) || (c =? 12) || (c =? 13)
  || (c =? 32) || (c =? 160) || (c =? 5760)
  || ((8192 <=? c) && (c <=? 8202))
  || (c =? 8232) || (c =? 8233) || (c =? 8239) || (c =? 8287)
  || (c =? 12288) || (c =? 65279).

Fixpoint trimStart (s : jsstring) : jsstring :=
  match s with
  | [] => []
  | c :: r => if isWhiteSpace c then trimStart r else s
  end.

Definition trimEnd (s : jsstring) : jsstring := rev (trimStart (rev s)).

Definition trim (s : jsstring) : jsstring := trimEnd (trimStart s).

(** [s.startsWith(p)]. *)
Fixpoint startsWith (p s : jsstring) : bool :=
  match p, s with
  | [], _ => true
  | x :: p', y :: s' => (x =? y) && startsWith p' s'
  | _ :: _, [] => false
  end.

(** [s.includes(q)]. *)
Fixpoint includes (q s : jsstring) : bool :=
  startsWith q s
  || match s with
     | [] => false
     | _ :: r => includes q r
     end.

(** A string is falsy exactly when it is empty. *)
Definition truthy (s : jsstring) : bool :=
  match s with [] => false | _ :: _ => true end.

(** [arr.join(sep)] on strings. *)
Fixpoint join (sep : jsstring) (parts : list jsstring) : jsstring :=
  match parts with
  | [] => []
  | [p] => p
  | p :: rest => p ++ sep ++ join sep rest
  end.

(** Decimal digits of a natural number, most significant first. *)
Fixpoint digits (fuel : nat) (n : N) (acc : jsstring) : jsstring :=
  match fuel with
  | O => acc
  | S f =>
      let acc' := (48 + n mod 10) :: acc in
      if n / 10 =? 0 then acc' else digits f (n / 10) acc'
  end.

(** [String(n)] for a non-negative integer. *)
Definition ofN (n : N) : jsstring := digits (S (N.to_nat (N.log2 n))) n [].

(** [id.toString()] for an integer chat identifier. *)
Definition ofZ (z : Z) : jsstring :=
  match z with
  | Zneg p => 45 :: ofN (Npos p)
  | _ => ofN (Z.to_N z)
  end.

End JS.
Export JS.

(* ================================================================== *)
(** ** Buffers and base64 *)

Module Bytes.

(** A [Buffer] is a list of bytes; a byte is read as a number below 256
    and written back modulo 256. *)
Definition toN (b : byte) : N := Byte.to_N b.

Definition ofN (n : N) : byte :=
  match Byte.of_N (n mod 256) with
  | Some b => b
  | None => x00
  end.

Definition xor (a b : byte) : byte := ofN (N.lxor (toN a) (toN b)).

(** Byte-wise xor of a buffer with a key stream, as long as the buffer. *)
Fixpoint xors (data stream : list byte) : list byte :=
  match data, stream with
  | d :: data', s :: stream' => xor d s :: xors data' stream'
  | _, _ => []
  end.

Fixpoint eqb (a b : list byte) : bool :=
  match a, b with
  | [], [] => true
  | x :: a', y :: b' => Byte.eqb x y && eqb a' b'
  | _, _ => false
  end.

(** Big-endian number of a buffer, and the [len] low bytes of a number. *)
Definition be (bs : list byte) : N :=
  fold_left (fun acc b => acc * 256 + toN b) bs 0.

Fixpoint unbe (len : nat) (n : N) : list byte :=
  match len with
  | O => []
  | S l => unbe l (n / 256) ++ [ofN n]
  end.

End Bytes.

Module Base64.

(** [buf.toString('base64')]: the standard alphabet, with padding. *)
Definition digit (n : N) : N :=
  if n <? 26 then 65 + n
  else if n <? 52 then 97 + (n - 26)
  else if n <? 62 then 48 + (n - 52)
  else if n =? 62 then 43
  else 47.

Definition pad : N := 61.

Fixpoint encode (bs : list byte) : jsstring :=
  match bs with
  | [] => []
  | [a] =>
      let x := Bytes.toN a in
      [digit (x / 4); digit ((x mod 4) * 16); pad; pad]
  | [a; b] =>
      let x := Bytes.toN a in
      let y := Bytes.toN b in
      [digit (x / 4); digit ((x mod 4) * 16 + y / 16);
       digit ((y mod 16) * 4); pad]
  | a :: b :: c :: rest =>
      let x := Bytes.toN a in
      let y := Bytes.toN b in
      let z := Bytes.toN c in
      digit (x / 4) :: digit ((x mod 4) * 16 + y / 16)
      :: digit ((y mod 16) * 4 + z / 64) :: digit (z mod 64)
      :: encode rest
  end.

(** [Buffer.from(s, 'base64')] never throws. The decoder takes each code
    unit of the string as one byte, so a unit above 255 is read as its
    low byte; it reads the standard and the URL-safe alphabet, skips
    every other character (white space included) and stops at the first
    padding character. *)
Definition unit8 (c : N) : N := c mod 256.

Definition value (c : N) : option N :=
  let c := unit8 c in
  if (65 <=? c) && (c <=? 90) then Some (c - 65)
  else if (97 <=? c) && (c <=? 122) then Some (c - 97 + 26)
  else if (48 <=? c) && (c <=? 57) then Some (c - 48 + 52)
  else if (c =? 43) || (c =? 45) then Some 62
  else if (c =? 47) || (c =? 95) then Some 63
  else None.

Fixpoint sextets (s : jsstring) : list N :=
  match s with
  | [] => []
  | c :: r =>
      if unit8 c =? pad then []
      else match value c with
           | Some v => v :: sextets r
           | None => sextets r
           end
  end.

Fixpoint pack (vs : list N) : list byte :=
  match vs with
  | a :: b :: c :: d :: rest =>
      Bytes.ofN (a * 4 + b / 16) :: Bytes.ofN ((b mod 16) * 16 + c / 4)
      :: Bytes.ofN ((c mod 4) * 64 + d) :: pack rest
  | [a; b; c] =>
      [Bytes.ofN (a * 4 + b / 16); Bytes.ofN ((b mod 16) * 16 + c / 4)]
  | [a; b] => [Bytes.ofN (a * 4 + b / 16)]
  | _ => []
  end.

Definition decode (s : jsstring) : list byte := pack (sextets s).

End Base64.

(* ================================================================== *)
(** ** The cipher: AES-256 in Galois/Counter mode

    [crypto.createCipheriv('aes-256-gcm', key, iv)] names the block cipher
    of FIPS 197 with a 256-bit key, run in the mode of NIST SP 800-38D. *)

Module AES.

Fixpoint zipWith (f : N -> N -> N) (a b : list N) : list N :=
  match a, b with
  | x :: a', y :: b' => f x y :: zipWith f a' b'
  | _, _ => []
  end.

(** Arithmetic of GF(2^8) modulo x^8 + x^4 + x^3 + x + 1. *)
Definition xtime (a : N) : N :=
  let d := a * 2 in
  if d <? 256 then d else N.lxor (d - 256) 27.

Fixpoint gmulLoop (bits : nat) (a b : N) : N :=
  match bits with
  | O => 0
  | S k => N.lxor (if N.odd b then a else 0) (gmulLoop k (xtime a) (b / 2))
  end.

Definition gmul (a b : N) : N := gmulLoop 8 a b.

(** The inverse (zero for zero) is the 254th power. *)
Definition ginv (a : N) : N :=
  let a2 := gmul a a in
  let a4 := gmul a2 a2 in
  let a8 := gmul a4 a4 in
  let a16 := gmul a8 a8 in
  let a32 := gmul a16 a16 in
  let a64 := gmul a32 a32 in
  let a128 := gmul a64 a64 in
  gmul a2 (gmul a4 (gmul a8 (gmul a16 (gmul a32 (gmul a64 a128))))).

Definition rotl8 (a k : N) : N :=
  N.lor (N.shiftl a k mod 256) (N.shiftr a (8 - k)).

Definition sbox (a : N) : N :=
  let b := ginv a in
  N.lxor b (N.lxor (rotl8 b 1) (N.lxor (rotl8 b 2)
    (N.lxor (rotl8 b 3) (N.lxor (rotl8 b 4) 99)))).

(** Key schedule for Nk = 8: sixty words of four bytes. *)
Definition rotWord (w : list N) : list N :=
  match w with
  | [] => []
  | a :: r => r ++ [a]
  end.

Definition subWord (w : list N) : list N := map sbox w.

Definition rcon (i : nat) : N := Nat.iter (i - 1) xtime 1.

Fixpoint words (fuel : nat) (bs : list N) : list (list N) :=
  match fuel with
  | O => []
  | S f =>
      match bs with
      | [] => []
      | _ => firstn 4 bs :: words f (skipn 4 bs)
      end
  end.

Fixpoint expand (n i : nat) (ws : list (list N)) : list (list N) :=
  match n with
  | O => ws
  | S n' =>
      let prev := nth (i - 1) ws [] in
      let t :=
        if Nat.eqb (Nat.modulo i 8) 0
        then zipWith N.lxor (subWord (rotWord prev)) [rcon (Nat.div i 8); 0; 0; 0]
        else if Nat.eqb (Nat.modulo i 8) 4 then subWord prev
        else prev in
      expand n' (S i) (ws ++ [zipWith N.lxor (nth (i - 8) ws []) t])
  end.

Definition keyExpansion (key : list N) : list (list N) :=
  expand 52 8 (words 8 key).

Definition roundKey (ws : list (list N)) (r : nat) : list N :=
  concat (firstn 4 (skipn (4 * r) ws)).

(** The state is kept in input order: byte [4c + r] is row [r] of column
    [c]. *)
Definition addRoundKey (st rk : list N) : list N := zipWith N.lxor st rk.

Definition subBytes (st : list N) : list N := map sbox st.

Definition shiftRows (st : list N) : list N :=
  map (fun i =>
         let r := Nat.modulo i 4 in
         let c := Nat.div i 4 in
         nth (4 * Nat.modulo (c + r) 4 + r)%nat st 0)
      (seq 0 16).

Fixpoint mixColumns (st : list N) : list N :=
  match st with
  | a0 :: a1 :: a2 :: a3 :: rest =>
      N.lxor (gmul 2 a0) (N.lxor (gmul 3 a1) (N.lxor a2 a3))
      :: N.lxor a0 (N.lxor (gmul 2 a1) (N.lxor (gmul 3 a2) a3))
      :: N.lxor a0 (N.lxor a1 (N.lxor (gmul 2 a2) (gmul 3 a3)))
      :: N.lxor (gmul 3 a0) (N.lxor a1 (N.lxor a2 (gmul 2 a3)))
      :: mixColumns rest
  | _ => []
  end.

Definition round (ws : list (list N)) (st : list N) (r : nat) : list N :=
  addRoundKey (mixColumns (shiftRows (subBytes st))) (roundKey ws r).

Definition cipher (ws : list (list N)) (input : list N) : list N :=
  let st := addRoundKey input (roundKey ws 0) in
  let st := fold_left (round ws) (seq 1 13) st in
  addRoundKey (shiftRows (subBytes st)) (roundKey ws 14).

(** One block under a 32-byte key; a block is the big-endian number of
    its sixteen bytes. *)
Definition encryptBlock (key : list byte) (block : N) : N :=
  Bytes.be
    (map Bytes.ofN
       (cipher (keyExpansion (map Bytes.toN key))
               (map Bytes.toN (Bytes.unbe 16 block)))).

End AES.

Module GCM.

(** Multiplication in GF(2^128), bit 0 of a block being its leftmost. *)
Definition R : N := 225 * 2 ^ 120.

Fixpoint mulLoop (n : nat) (x v z : N) : N :=
  match n with
  | O => z
  | S n' =>
      let z' := if N.testbit x (N.of_nat n') then N.lxor z v else z in
      let v' := if N.odd v then N.lxor (N.shiftr v 1) R else N.shiftr v 1 in
      mulLoop n' x v' z'
  end.

Definition mul (x y : N) : N := mulLoop 128 x y 0.

Definition ghash (h : N) (xs : list N) : N :=
  fold_left (fun y x => mul (N.lxor y x) h) xs 0.

(** The 16-byte blocks of a buffer, the last one padded with zeros. *)
Fixpoint blocks (fuel : nat) (bs : list byte) : list N :=
  match fuel with
  | O => []
  | S f =>
      match bs with
      | [] => []
      | _ =>
          let blk := firstn 16 bs in
          Bytes.be (blk ++ repeat x00 (16 - length blk))
          :: blocks f (skipn 16 bs)
      end
  end.

Definition blocksOf (bs : list byte) : list N := blocks (length bs) bs.

Definition bitLength (bs : list byte) : N := 8 * N.of_nat (length bs).

Definition inc32 (x : N) : N :=
  (x / 2 ^ 32) * 2 ^ 32 + (x + 1) mod 2 ^ 32.

Definition hashKey (key : list byte) : N := AES.encryptBlock key 0.

(** The pre-counter block J0. *)
Definition j0 (key iv : list byte) : N :=
  if Nat.eqb (length iv) 12 then Bytes.be iv * 2 ^ 32 + 1
  else ghash (hashKey key) (blocksOf iv ++ [bitLength iv]).

Fixpoint keystream (n : nat) (key : list byte) (ctr : N) : list byte :=
  match n with
  | O => []
  | S n' =>
      Bytes.unbe 16 (AES.encryptBlock key ctr)
      ++ keystream n' key (inc32 ctr)
  end.

(** GCTR from the block after J0: encryption and decryption alike. *)
Definition ctr (key iv data : list byte) : list byte :=
  Bytes.xors data
    (keystream (Nat.div (length data + 15) 16) key (inc32 (j0 key iv))).

(** The full 16-byte tag of a ciphertext (no associated data). *)
Definition tag (key iv ciphertext : list byte) : list byte :=
  Bytes.unbe 16
    (N.lxor
       (ghash (hashKey key) (blocksOf ciphertext ++ [bitLength ciphertext]))
       (AES.encryptBlock key (j0 key iv))).

(** Tag lengths of NIST SP 800-38D, the ones [setAuthTag] takes. *)
Definition validTagLength (n : nat) : bool :=
  Nat.eqb n 4 || Nat.eqb n 8 || (Nat.leb 12 n && Nat.leb n 16).

End GCM.

(* ================================================================== *)
(** ** Exceptions *)

Inductive exn :=
| SyntaxError                (* JSON.parse on text that is not JSON *)
| TypeError                  (* property of null, Buffer.from on a number, ... *)
| IOError                    (* a file that cannot be read or written *)
| InvalidKeyLength           (* createCipheriv / createDecipheriv *)
| InvalidIV                  (* createDecipheriv with an empty nonce *)
| InvalidTagLength           (* setAuthTag *)
| AuthenticationFailed       (* decipher.final() *)
| Error (message : string).  (* [throw new Error(message)] in the source *)

Arguments Error message%_string.

Definition result (A : Type) : Type := (exn + A)%type.

Definition ok {A : Type} (a : A) : result A := inr a.
Definition throw {A : Type} (e : exn) : result A := inl e.

Definition bind {A B : Type} (r : result A) (k : A -> result B) : result B :=
  match r with
  | inl e => inl e
  | inr a => k a
  end.

Notation "x <- r ;; k" := (bind r (fun x => k))
  (at level 61, r at next level, right associativity).

Fixpoint mapM {A B : Type} (f : A -> result B) (l : list A) : result (list B) :=
  match l with
  | [] => ok []
  | a :: l' => b <- f a ;; bs <- mapM f l' ;; ok (b :: bs)
  end.

(* ================================================================== *)
(** ** Values that JSON.parse returns *)

Module Json.

(** A number is kept as the text [String(n)] gives for it; the
    properties of an object are held once each, in insertion order. *)
Inductive json :=
| JNull
| JBool (b : bool)
| JNum (text : jsstring)
| JStr (s : jsstring)
| JArr (items : list json)
| JObj (props : list (jsstring * json)).

Fixpoint lookup (key : jsstring) (props : list (jsstring * json)) : option json :=
  match props with
  | [] => None
  | (k, v) :: rest => if streq k key then Some v else lookup key rest
  end.

(** [v.key] for a key no prototype defines (iv, data, tag, name, manager,
    code); [None] is [undefined]. *)
Definition get (v : json) (key : jsstring) : result (option json) :=
  match v with
  | JNull => throw TypeError
  | JObj props => ok (lookup key props)
  | _ => ok None
  end.

(** [!!v]. *)
Definition truthy (v : option json) : bool :=
  match v with
  | None => false
  | Some JNull => false
  | Some (JBool b) => b
  | Some (JNum t) => negb (streq t (lit "0"))
  | Some (JStr s) => JS.truthy s
  | Some (JArr _) => true
  | Some (JObj _) => true
  end.

(** [String(v)]: an array joins its elements with commas, null elements
    being empty; an object prints as [object Object] unless a property
    of its own hides [toString], which then is not callable. *)
Fixpoint toStr (v : json) : result jsstring :=
  match v with
  | JNull => ok (lit "null")
  | JBool true => ok (lit "true")
  | JBool false => ok (lit "false")
  | JNum t => ok t
  | JStr s => ok s
  | JArr items =>
      parts <- (fix each (l : list json) : result (list jsstring) :=
                  match l with
                  | [] => ok []
                  | JNull :: l' => ps <- each l' ;; ok ([] :: ps)
                  | x :: l' => p <- toStr x ;; ps <- each l' ;; ok (p :: ps)
                  end) items ;;
      ok (join (lit ",") parts)
  | JObj props =>
      match lookup (lit "toString") props with
      | Some _ => throw TypeError
      | None => ok (lit "[object Object]")
      end
  end.

(** [v.toString()]. *)
Definition toString (v : json) : result jsstring :=
  match v with
  | JNull => throw TypeError
  | _ => toStr v
  end.

End Json.
Export Json.

(* ================================================================== *)
(** ** Records, the platform, the world *)

Record client := Client { name : jsstring; manager : jsstring; code : jsstring }.

(** One hit of [fuse.search]; its score, a float, is not read by the bot. *)
Record fuseResult := FuseResult { item : client; refIndex : nat }.

Class Host := {
  (** [JSON.parse(text)]; [None] when it throws. *)
  JSON_parse : jsstring -> option json;
  (** [JSON.stringify(value, null, 2)]. *)
  JSON_stringify : json -> jsstring;
  (** [buf.toString('utf-8')]. *)
  Buffer_toString : list byte -> jsstring;
  (** [Buffer.from(v, 'base64')] for an array or an object [v]; [None]
      when it throws. *)
  Buffer_fromObject : json -> option (list byte);
  (** [s.toLowerCase()]. *)
  toLowerCase : jsstring -> jsstring;
  (** [new Fuse(docs, options).search(pattern, { limit })] with the options
      of [loadClients]. *)
  Fuse_search : list client -> jsstring -> nat -> list fuseResult
}.

(** A file as the bot meets it: absent, present but refusing access, or
    holding text. *)
Inductive file :=
| Missing
| Denied
| Holds (text : jsstring).

(** The directory of authorized_users.json as start-up meets it. *)
Inductive folder :=
| Open      (* its files can be looked up and created *)
| Sealed    (* its files can be looked up, none can be created *)
| Closed.   (* nothing in it can be looked up *)

(** The [code] of the error of a file system call: ENOENT, or another one,
    for which EACCES stands. *)
Inductive errno :=
| ENOENT
| EACCES.

(** [fsPromises.access(path, fs.constants.F_OK)]: [None] when it resolves,
    as it does for a file that is there, readable or not. *)
Definition access (dir : folder) (f : file) : option errno :=
  match dir with
  | Closed => Some EACCES
  | _ =>
      match f with
      | Missing => Some ENOENT
      | _ => None
      end
  end.

(** What the bot prints on the console. *)
Inductive logged :=
| WarnDataFileNotFound
| ErrorDecrypt (e : exn)
| LogLoaded (n : nat)
| WarnListEmpty
| ErrorAuthRead (e : exn)
| ErrorAuthWrite.

Record world := World {
  clients : list client;
  (** [fuse]: null, or the index with the collection it was built over. *)
  fuse : option (list client);
  (** [authorizedUsers]: a Set keeps insertion order. *)
  authorizedUsers : list jsstring;
  (** data/encrypted_clients.json and authorized_users.json. *)
  dataFile : file;
  authFile : file;
  (** [bot.sendMessage(chatId, text)] calls, oldest first. *)
  sent : list (jsstring * jsstring);
  console : list logged
}.

Record message := Message { chat_id : Z; text : option jsstring }.

(** [process.env] as far as the bot reads it. *)
Record environment := Environment {
  BOT_TOKEN : option jsstring;
  DATA_SECRET : option jsstring
}.

(* ================================================================== *)
(** ** The Node crypto calls of the two programs *)

Module Crypto.

(** [createCipheriv] and [createDecipheriv] with 'aes-256-gcm': the nonce
    is not empty and the key is 32 bytes long, or they throw. *)
Definition init (key iv : list byte) : result unit :=
  if Nat.eqb (length iv) 0 then throw InvalidIV
  else if negb (Nat.eqb (length key) 32) then throw InvalidKeyLength
  else ok tt.

(** [decipher.setAuthTag(tag)]. *)
Definition setAuthTag (tag : list byte) : result unit :=
  if GCM.validTagLength (length tag) then ok tt else throw InvalidTagLength.

(** [Buffer.concat([decipher.update(data), decipher.final()])]: [final]
    throws unless the tag given is the leading part of the tag computed. *)
Definition updateFinal (key iv tag data : list byte) : result (list byte) :=
  if Bytes.eqb tag (firstn (length tag) (GCM.tag key iv data))
  then ok (GCM.ctr key iv data)
  else throw AuthenticationFailed.

End Crypto.

(* ================================================================== *)
(** ** The exporter: [encryptData] *)

Module Exporter.

(** [iv] is what [crypto.randomBytes(12)] returned. *)
Definition encryptData (SECRET_BUFFER iv plaintextBuffer : list byte) : result json :=
  _ <- Crypto.init SECRET_BUFFER iv ;;
  let encrypted := GCM.ctr SECRET_BUFFER iv plaintextBuffer in
  let authTag := GCM.tag SECRET_BUFFER iv encrypted in
  ok (JObj [ (lit "iv", JStr (Base64.encode iv));
             (lit "data", JStr (Base64.encode encrypted));
             (lit "tag", JStr (Base64.encode authTag)) ]).

End Exporter.

(* ================================================================== *)
(** ** The bot: configuration *)

Definition ACCESS_CODE : jsstring := lit "22170313".

(** The checks at the top of index.js: [None] is [process.exit(1)],
    otherwise the token and [secretBuffer]. *)
Definition configure (env : environment) : option (jsstring * list byte) :=
  match BOT_TOKEN env with
  | None => None
  | Some token =>
      if negb (JS.truthy token) then None
      else
        match DATA_SECRET env with
        | None => None
        | Some secret =>
            if negb (JS.truthy secret) then None
            else
              let secretBuffer := Base64.decode secret in
              if negb (Nat.eqb (length secretBuffer) 32) then None
              else Some (token, secretBuffer)
        end
  end.

(* ================================================================== *)
(** ** The bot: messages it sends *)

Module Text.
Definition accessGranted : jsstring :=
  lit "Доступ открыт! Отправьте название клиента, менеджера или код, чтобы найти совпадения.".
Definition accessPrompt : jsstring :=
  lit "Для доступа к боту отправьте код доступа. После подтверждения вы сможете искать клиентов.".
Definition sendQuery : jsstring := lit "Пожалуйста, отправьте запрос для поиска.".
Definition noMatches : jsstring := lit "Совпадений не найдено. Попробуйте уточнить запрос.".
Definition header : jsstring := lit "Нашёл следующие совпадения:".
Definition welcomeBack : jsstring :=
  lit "Рады снова видеть! Отправьте запрос с названием клиента, а я найду ближайшие совпадения.".
Definition hello : jsstring :=
  lit "Привет! Чтобы получить доступ к поиску, отправьте код доступа. После этого сможете искать клиентов.".
Definition reloaded : jsstring := lit "Перезагрузил данные клиентов.".
Definition unknownCommand : jsstring :=
  lit "Неизвестная команда. Просто отправьте запрос для поиска клиента.".
Definition dash : jsstring := lit "—".
Definition newline : jsstring := [10].
End Text.

(* ================================================================== *)
(** ** The bot: data, search, access, dispatch *)

Definition setDirectory (w : world) (cs : list client) (ix : option (list client)) : world :=
  World cs ix (authorizedUsers w) (dataFile w) (authFile w) (sent w) (console w).

Definition setAuthorized (w : world) (users : list jsstring) : world :=
  World (clients w) (fuse w) users (dataFile w) (authFile w) (sent w) (console w).

Definition setAuthFile (w : world) (f : file) : world :=
  World (clients w) (fuse w) (authorizedUsers w) (dataFile w) f (sent w) (console w).

(** [bot.sendMessage(chatId, text)]. *)
Definition sendMessage (w : world) (chatId body : jsstring) : world :=
  World (clients w) (fuse w) (authorizedUsers w) (dataFile w) (authFile w)
        (sent w ++ [(chatId, body)]) (console w).

Definition log (w : world) (entries : list logged) : world :=
  World (clients w) (fuse w) (authorizedUsers w) (dataFile w) (authFile w)
        (sent w) (console w ++ entries).

(** [set.has(x)] and [new Set(list)]. *)
Definition has (x : jsstring) (set : list jsstring) : bool := existsb (streq x) set.

Definition newSet (l : list jsstring) : list jsstring :=
  fold_left (fun set x => if has x set then set else set ++ [x]) l [].

Section Bot.

Context {host : Host}.
Variable secretBuffer : list byte.

(** *** Access registry *)

(** An error of [access] other than ENOENT is thrown again, and the
    [writeFile] that creates the file is not in a [try]: either one
    rejects the promise of [loadAuthorizedUsers]. *)
Definition ensureAuthFile (dir : folder) (w : world) : result world :=
  match access dir (authFile w) with
  | None => ok w
  | Some ENOENT =>
      match dir with
      | Open => ok (setAuthFile w (Holds (JSON_stringify (JArr []))))
      | _ => throw IOError
      end
  | Some _ => throw IOError
  end.

Definition readAuthorizedUsers (f : file) : result (list jsstring) :=
  match f with
  | Holds data =>
      match JSON_parse data with
      | None => throw SyntaxError
      | Some (JArr ids) => strs <- mapM Json.toString ids ;; ok (newSet strs)
      | Some _ => ok []
      end
  | _ => throw IOError
  end.

(** [ensureAuthFile] is awaited before the [try]; what is thrown inside
    the [try] is printed and leaves the empty set. *)
Definition loadAuthorizedUsers (dir : folder) (w : world) : result world :=
  w <- ensureAuthFile dir w ;;
  match readAuthorizedUsers (authFile w) with
  | inr set => ok (setAuthorized w set)
  | inl e => ok (setAuthorized (log w [ErrorAuthRead e]) [])
  end.

(** The set is changed before the file is written; a failed write is
    logged and nothing else. *)
Definition addAuthorizedUser (w : world) (userId : jsstring) : world :=
  let normalizedId := userId in
  if has normalizedId (authorizedUsers w) then w
  else
    let w := setAuthorized w (authorizedUsers w ++ [normalizedId]) in
    match authFile w with
    | Denied => log w [ErrorAuthWrite]
    | _ => setAuthFile w (Holds (JSON_stringify (JArr (map JStr (authorizedUsers w)))))
    end.

(** *** Loading the directory *)

Definition normalizeCell (value : option json) : result jsstring :=
  match value with
  | None => ok []
  | Some JNull => ok []
  | Some v => s <- toStr v ;; ok (trim s)
  end.

Definition bufferFrom (v : option json) : result (list byte) :=
  match v with
  | Some (JStr s) => ok (Base64.decode s)
  | Some (JArr items) =>
      match Buffer_fromObject (JArr items) with
      | Some b => ok b
      | None => throw TypeError
      end
  | Some (JObj props) =>
      match Buffer_fromObject (JObj props) with
      | Some b => ok b
      | None => throw TypeError
      end
  | _ => throw TypeError
  end.

(** Lines 108 to 124: from the parsed payload to the decrypted buffer. *)
Definition decryptPayload (payload : json) : result (list byte) :=
  iv <- get payload (lit "iv") ;;
  data <- get payload (lit "data") ;;
  tag <- get payload (lit "tag") ;;
  if negb (truthy iv) || negb (truthy data) || negb (truthy tag)
  then throw (Error "Invalid encrypted payload structure.")
  else
    ivBuffer <- bufferFrom iv ;;
    _ <- Crypto.init secretBuffer ivBuffer ;;
    tagBuffer <- bufferFrom tag ;;
    _ <- Crypto.setAuthTag tagBuffer ;;
    dataBuffer <- bufferFrom data ;;
    Crypto.updateFinal secretBuffer ivBuffer tagBuffer dataBuffer.

Definition normalizeEntry (entry : json) : result client :=
  n <- (v <- get entry (lit "name") ;; normalizeCell v) ;;
  m <- (v <- get entry (lit "manager") ;; normalizeCell v) ;;
  c <- (v <- get entry (lit "code") ;; normalizeCell v) ;;
  ok (Client n m c).

(** Lines 126 to 136: from the decrypted buffer to the records kept. *)
Definition parseClients (decrypted : list byte) : result (list client) :=
  match JSON_parse (Buffer_toString decrypted) with
  | None => throw SyntaxError
  | Some (JArr parsed) =>
      entries <- mapM normalizeEntry parsed ;;
      ok (filter (fun entry => JS.truthy (name entry)) entries)
  | Some _ => throw (Error "Decrypted payload is not an array.")
  end.

(** The body of the [try] once the file is known to exist. *)
Definition readClients (f : file) : result (list client) :=
  match f with
  | Holds raw =>
      match JSON_parse raw with
      | None => throw SyntaxError
      | Some payload =>
          decrypted <- decryptPayload payload ;;
          parseClients decrypted
      end
  | _ => throw IOError
  end.

Definition decryptClientsPayload (f : file) : list client * list logged :=
  match f with
  | Missing => ([], [WarnDataFileNotFound])
  | _ =>
      match readClients f with
      | inr records => (records, [])
      | inl error => ([], [ErrorDecrypt error])
      end
  end.

Definition loadClients (w : world) : world :=
  let (decryptedClients, printed) := decryptClientsPayload (dataFile w) in
  let w := log w printed in
  if Nat.ltb 0 (length decryptedClients)
  then log (setDirectory w decryptedClients (Some decryptedClients))
           [LogLoaded (length decryptedClients)]
  else log (setDirectory w decryptedClients None) [WarnListEmpty].

(** *** Search *)

Definition orDash (s : jsstring) : jsstring :=
  if JS.truthy s then s else Text.dash.

Definition formatLine (index : nat) (it : client) : jsstring :=
  JS.ofN (N.of_nat (index + 1)) ++ lit ". Клиент: " ++ orDash (name it)
  ++ Text.newline ++ lit "   Менеджер: " ++ orDash (manager it)
  ++ Text.newline ++ lit "   Код: " ++ orDash (code it).

Fixpoint formatLines (index : nat) (items : list client) : list jsstring :=
  match items with
  | [] => []
  | it :: rest => formatLine index it :: formatLines (S index) rest
  end.

Definition formatResult (resultItems : list client) : jsstring :=
  if Nat.eqb (length resultItems) 0 then Text.noMatches
  else join (Text.newline ++ Text.newline)
            (Text.header :: formatLines 0 resultItems).

Definition matchesQuery (loweredQuery : jsstring) (c : client) : bool :=
  includes loweredQuery (toLowerCase (name c))
  || includes loweredQuery (toLowerCase (manager c))
  || includes loweredQuery (toLowerCase (code c)).

Definition fallbackSearch (w : world) (query : jsstring) : list client :=
  let loweredQuery := toLowerCase query in
  firstn 5 (filter (matchesQuery loweredQuery) (clients w)).

Definition findMatches (w : world) (query : jsstring) : list client :=
  if negb (JS.truthy (trim query)) then []
  else
    match fuse w with
    | None => fallbackSearch w query
    | Some docs =>
        let fuseResults := Fuse_search docs query 5 in
        if Nat.ltb 0 (length fuseResults) then map item fuseResults
        else fallbackSearch w query
    end.

(** *** Handlers *)

(** [addAuthorizedUser] does not reject, so the [.catch] of the source
    is never entered; the confirmation follows the write. *)
Definition handleUnauthorizedMessage (w : world) (chatId body : jsstring) : world :=
  if streq (trim body) ACCESS_CODE
  then sendMessage (addAuthorizedUser w chatId) chatId Text.accessGranted
  else sendMessage w chatId Text.accessPrompt.

Definition handleSearchMessage (w : world) (chatId query : jsstring) : world :=
  if negb (JS.truthy (trim query)) then sendMessage w chatId Text.sendQuery
  else
    let matches := findMatches w query in
    let response := formatResult matches in
    sendMessage w chatId response.

Definition textOf (msg : message) : jsstring :=
  match text msg with
  | Some t => t
  | None => []
  end.

(** [bot.on('message', ...)]. *)
Definition onMessage (w : world) (msg : message) : world :=
  let chatId := JS.ofZ (chat_id msg) in
  let body := textOf msg in
  if negb (JS.truthy body) then w
  else if negb (has chatId (authorizedUsers w))
  then handleUnauthorizedMessage w chatId body
  else if startsWith (lit "/") body then
    if streq body (lit "/reload")
    then sendMessage (loadClients w) chatId Text.reloaded
    else sendMessage w chatId Text.unknownCommand
  else handleSearchMessage w chatId body.

(** [bot.onText(/\/start/, ...)]. *)
Definition onStart (w : world) (msg : message) : world :=
  let chatId := JS.ofZ (chat_id msg) in
  if has chatId (authorizedUsers w)
  then sendMessage w chatId Text.welcomeBack
  else sendMessage w chatId Text.hello.

(** What happens in the running bot: a message arrives (the 'message'
    listeners run, then the text patterns), or the timer set by the
    watcher of the data directory fires. *)
Inductive event :=
| Incoming (msg : message)
| ReloadTimer.

Definition step (w : world) (ev : event) : world :=
  match ev with
  | Incoming msg =>
      let w := onMessage w msg in
      if includes (lit "/start") (textOf msg) then onStart w msg else w
  | ReloadTimer => loadClients w
  end.

Definition run (w : world) (evs : list event) : world := fold_left step evs w.

(** [bootstrap] up to the moment the handlers are installed; what it
    throws reaches [bootstrap().catch], which prints it and ends the
    process with code 1. [scheduleDataReload] sets the watcher whose timer
    is [ReloadTimer]; the collection it empties when the data directory is
    missing is the one [loadClients] has just left empty, the file being
    missing then. *)
Definition bootstrap (dir : folder) (w : world) : result world :=
  w <- loadAuthorizedUsers dir w ;;
  ok (loadClients w).

End Bot.

(** The world in which index.js starts. *)
Definition initial (data auth : file) : world :=
  World [] None [] data auth [] [].

(* ================================================================== *)
(** ** Payloads under test *)

(** The object [{ iv, data, tag }] with three strings. *)
Definition payloadOf (iv data tag : jsstring) : json :=
  JObj [ (lit "iv", JStr iv); (lit "data", JStr data); (lit "tag", JStr tag) ].

(** Bit [i] of a buffer flipped, counting from the first byte's lowest
    bit; a buffer too short is left as it is. *)
Fixpoint flipBit (i : nat) (bs : list byte) : list byte :=
  match bs with
  | [] => []
  | b :: rest =>
      if Nat.ltb i 8 then Bytes.xor b (Bytes.ofN (2 ^ N.of_nat i)) :: rest
      else b :: flipBit (i - 8) rest
  end.

(* ================================================================== *)
(** ** A host to evaluate examples on

    The theorems below hold for every [Host]; this one serves where an
    example has to name one. *)

Module Sample.

(** Lower case as [toLowerCase] gives it on text of Basic Latin
    characters and Greek letters: a capital becomes its small letter,
    except that a capital sigma after a letter, with no letter behind it,
    becomes the final sigma. *)
Definition letter (c : N) : bool :=
  (65 <=? c) && (c <=? 90) || (97 <=? c) && (c <=? 122)
  || (913 <=? c) && (c <=? 937) || (945 <=? c) && (c <=? 969).

Definition lowerUnit (c : N) : N :=
  if (65 <=? c) && (c <=? 90) then c + 32
  else if (913 <=? c) && (c <=? 937) && negb (c =? 930) then c + 32
  else c.

Fixpoint lowerAfter (letterBefore : bool) (s : jsstring) : jsstring :=
  match s with
  | [] => []
  | c :: r =>
      let letterBehind := match r with x :: _ => letter x | [] => false end in
      (if (c =? 931) && letterBefore && negb letterBehind then 962
       else lowerUnit c)
      :: lowerAfter (letter c) r
  end.

Definition lower (s : jsstring) : jsstring := lowerAfter false s.

(** An engine that finds a pattern where it stands in a field, both in
    lower case, and nowhere else: the hits that Fuse.js finds without an
    error, in the order of the collection, which is the order of hits of
    equal score. The theorems hold for every engine; the examples use
    directories in which no field comes near a query without containing
    it. *)
Fixpoint hits (pattern : jsstring) (index : nat) (docs : list client)
    : list fuseResult :=
  match docs with
  | [] => []
  | c :: rest =>
      if includes pattern (lower (name c))
         || includes pattern (lower (manager c))
         || includes pattern (lower (code c))
      then FuseResult c index :: hits pattern (S index) rest
      else hits pattern (S index) rest
  end.

Definition search (docs : list client) (pattern : jsstring) (limit : nat)
    : list fuseResult :=
  firstn limit (hits (lower pattern) 0 docs).

Definition hexDigit (n : N) : N := if n <? 10 then 48 + n else 87 + n.

(** A string between quotes; quote, backslash and control characters
    escaped. *)
Definition quoteUnit (c : N) : jsstring :=
  if c =? 34 then [92; 34]
  else if c =? 92 then lit "\\"
  else if c =? 8 then lit "\b"
  else if c =? 9 then lit "\t"
  else if c =? 10 then lit "\n"
  else if c =? 12 then lit "\f"
  else if c =? 13 then lit "\r"
  else if c <? 32 then lit "\u00" ++ [hexDigit (c / 16); hexDigit (c mod 16)]
  else [c].

Definition quote (s : jsstring) : jsstring :=
  [34] ++ flat_map quoteUnit s ++ [34].

(** [JSON.stringify(v, null, 2)]. *)
Fixpoint print (indent : jsstring) (v : json) : jsstring :=
  match v with
  | JNull => lit "null"
  | JBool true => lit "true"
  | JBool false => lit "false"
  | JNum t => t
  | JStr s => quote s
  | JArr [] => lit "[]"
  | JArr items =>
      let inner := lit "  " ++ indent in
      lit "[" ++ [10] ++ inner
      ++ join (lit "," ++ [10] ++ inner) (map (print inner) items)
      ++ [10] ++ indent ++ lit "]"
  | JObj [] => lit "{}"
  | JObj props =>
      let inner := lit "  " ++ indent in
      lit "{" ++ [10] ++ inner
      ++ join (lit "," ++ [10] ++ inner)
           ((fix each (l : list (jsstring * json)) : list jsstring :=
               match l with
               | [] => []
               | (k, x) :: l' => (quote k ++ lit ": " ++ print inner x) :: each l'
               end) props)
      ++ [10] ++ indent ++ lit "}"
  end.

Definition key : list byte := map Bytes.ofN (map N.of_nat (seq 0 32)).
Definition nonce : list byte := map Bytes.ofN (map N.of_nat (seq 100 12)).

(** A directory as the exporter could have left it, with cells still to
    be trimmed, one name blank and one manager null. *)
Definition directory : json :=
  JArr [ JObj [ (lit "name", JStr (lit "  Acme Corp "));
                (lit "manager", JStr (lit "Ivan"));
                (lit "code", JStr (lit " A1")) ];
         JObj [ (lit "name", JStr (lit "   "));
                (lit "manager", JStr (lit "Petr")) ];
         JObj [ (lit "name", JStr (lit "Beta"));
                (lit "manager", JNull);
                (lit "code", JStr []) ] ].

(** Its text is Basic Latin, so its UTF-8 bytes are its code units. *)
Definition plaintext : list byte := map Bytes.ofN (print [] directory).
Definition ciphertext : list byte := GCM.ctr key nonce plaintext.
Definition authTag : list byte := GCM.tag key nonce ciphertext.

Definition payload : json :=
  payloadOf (Base64.encode nonce) (Base64.encode ciphertext)
            (Base64.encode authTag).

(** A reader that knows the texts [print] writes for these values and
    rejects every other text. *)
Definition known : list json :=
  [JArr []; JObj []; JNull; JBool true; directory; payload].

Definition parse (s : jsstring) : option json :=
  find (fun v => streq (print [] v) s) known.

Definition host : Host := {|
  JSON_parse := parse;
  JSON_stringify := print [];
  Buffer_toString := fun b => utf16_of_utf8 (map Bytes.toN b);
  Buffer_fromObject := fun _ => None;
  toLowerCase := lower;
  Fuse_search := search
|}.

Definition world0 : world := initial Missing Missing.

(** Six records named a1 to a6, loaded and indexed. *)
Definition six : list client :=
  map (fun n => Client (lit "a" ++ JS.ofN n) [] []) [1; 2; 3; 4; 5; 6].

Definition world6 : world := World six (Some six) [] Missing Missing [] [].

(** The same directory with chat 42 authorized and on file. *)
Definition member : world :=
  World six (Some six) [lit "42"] Missing
        (Holds (print [] (JArr [JStr (lit "42")]))) [] [].



(** An environment with a token and the sample key in base64. *)
Definition env : environment :=
  Environment (Some (lit "123456:token")) (Some (Base64.encode key)).

End Sample.

(** What a payload must be for [p] to come out of it under [key]: three
    truthy fields that turn into buffers, a key of 32 bytes, a nonce of at
    least one byte, a tag of an accepted length that is the leading part of
    the tag computed over the ciphertext, and [p] the counter-mode image
    of the ciphertext. *)
Definition authentic {host : Host} (key : list byte) (payload : json)
    (p : list byte) : Prop :=
  exists iv data tag ivBuffer dataBuffer tagBuffer,
    get payload (lit "iv") = ok iv
    /\ get payload (lit "data") = ok data
    /\ get payload (lit "tag") = ok tag
    /\ truthy iv = true /\ truthy data = true /\ truthy tag = true
    /\ bufferFrom iv = ok ivBuffer
    /\ bufferFrom data = ok dataBuffer
    /\ bufferFrom tag = ok tagBuffer
    /\ length key = 32%nat /\ ivBuffer <> []
    /\ GCM.validTagLength (length tagBuffer) = true
    /\ tagBuffer = firstn (length tagBuffer) (GCM.tag key ivBuffer dataBuffer)
    /\ p = GCM.ctr key ivBuffer dataBuffer.

(* ================================================================== *)
(** ** Loading, in the words of the specification *)

(** [t] is [s] without its leading and trailing white space. *)
Definition trimmedOf (s t : jsstring) : Prop :=
  exists l r,
    s = l ++ t ++ r
    /\ forallb isWhiteSpace l = true
    /\ forallb isWhiteSpace r = true
    /\ match t with [] => True | c :: _ => isWhiteSpace c = false end
    /\ match rev t with [] => True | c :: _ => isWhiteSpace c = false end.

(** A cell of a raw record is missing, null or a string; a raw record is
    an object with such cells under name, manager and code. *)
Definition rawCell (v : option json) : bool :=
  match v with
  | None => true
  | Some JNull => true
  | Some (JStr _) => true
  | Some _ => false
  end.

Definition rawRecord (entry : json) : bool :=
  match entry with
  | JObj props =>
      rawCell (lookup (lit "name") props)
      && rawCell (lookup (lit "manager") props)
      && rawCell (lookup (lit "code") props)
  | _ => false
  end.

(** A cell normalised: a string trimmed, the empty string for a missing or
    null cell. *)
Definition specCell (v : option json) : jsstring :=
  match v with
  | Some (JStr s) => trim s
  | _ => []
  end.

Definition specRecord (entry : json) : client :=
  match entry with
  | JObj props =>
      Client (specCell (lookup (lit "name") props))
             (specCell (lookup (lit "manager") props))
             (specCell (lookup (lit "code") props))
  | _ => Client [] [] []
  end.

(** The ways a load fails once the file exists: it cannot be read, it is
    not JSON, its payload does not decrypt, or the decrypted text does not
    give records. *)
Inductive loadFails {host : Host} (key : list byte) : file -> Prop :=
| FileDenied : loadFails key Denied
| FileNotJson (raw : jsstring) :
    JSON_parse raw = None -> loadFails key (Holds raw)
| DecryptFails (raw : jsstring) (payload : json) (e : exn) :
    JSON_parse raw = Some payload ->
    decryptPayload key payload = throw e ->
    loadFails key (Holds raw)
| ParseFails (raw : jsstring) (payload : json) (decrypted : list byte) (e : exn) :
    JSON_parse raw = Some payload ->
    decryptPayload key payload = ok decrypted ->
    parseClients decrypted = throw e ->
    loadFails key (Holds raw).

(* ================================================================== *)
(** ** The rest of the exporter *)

(** What the exporter takes from the platform besides the cipher. *)
Class ExportHost := {
  (** [JSON.stringify(value)]. *)
  JSON_stringifyCompact : json -> jsstring;
  (** [Buffer.from(text)]: the UTF-8 bytes of a string. *)
  Buffer_fromString : jsstring -> list byte
}.

(** The spreadsheet as XLSX hands it over: no file, or the sheets in
    order, each with its name and the rows [sheet_to_json] makes of it. *)
Inductive excel :=
| NoExcelFile
| Workbook (sheets : list (jsstring * list json)).

(** The check of DATA_SECRET at the top of the exporter: [None] is
    [process.exit(1)]. *)
Definition exporterSecret (env : environment) : option (list byte) :=
  match DATA_SECRET env with
  | None => None
  | Some secret =>
      if negb (JS.truthy secret) then None
      else
        let SECRET_BUFFER := Base64.decode secret in
        if negb (Nat.eqb (length SECRET_BUFFER) 32) then None
        else Some SECRET_BUFFER
  end.

(** One row of the sheet; [entry.Код ?? entry['Код']] reads the same
    property twice. *)
Definition rowToClient (entry : json) : result client :=
  n <- (v <- get entry (lit "Наименование") ;; normalizeCell v) ;;
  m <- (v <- get entry (lit "Основной менеджер") ;; normalizeCell v) ;;
  c <- (v <- get entry (lit "Код") ;; normalizeCell v) ;;
  ok (Client n m c).

(** [None] is the end of the process with code 1, by [process.exit] or by
    an exception that reaches the [catch] of [main]. *)
Definition readClientsFromExcel (x : excel) : option (list client) :=
  match x with
  | NoExcelFile => None
  | Workbook [] => None
  | Workbook ((sheetName, rows) :: _) =>
      if negb (JS.truthy sheetName) then None
      else
        match mapM rowToClient rows with
        | inr entries => Some (filter (fun entry => JS.truthy (name entry)) entries)
        | inl _ => None
        end
  end.

(** The object literal [{ name, manager, code }] of a record. *)
Definition toJson (c : client) : json :=
  JObj [ (lit "name", JStr (name c)); (lit "manager", JStr (manager c));
         (lit "code", JStr (code c)) ].

Section ExporterMain.

Context {host : Host} {exportHost : ExportHost}.
Variable SECRET_BUFFER : list byte.

(** [JSON.stringify(payload, null, 2)] written to the output file. *)
Definition writeEncryptedData (out : file) (payload : json) : option file :=
  match out with
  | Denied => None
  | _ => Some (Holds (JSON_stringify payload))
  end.

(** [main]: the file written, or [None] when the process ends with code
    1; [iv] is what [crypto.randomBytes(12)] returned. *)
Definition main (x : excel) (iv : list byte) (out : file) : option file :=
  match readClientsFromExcel x with
  | None => None
  | Some clients =>
      let serialized :=
        Buffer_fromString (JSON_stringifyCompact (JArr (map toJson clients))) in
      match Exporter.encryptData SECRET_BUFFER iv serialized with
      | inl _ => None
      | inr encryptedPayload => writeEncryptedData out encryptedPayload
      end
  end.

End ExporterMain.

(* ================================================================== *)
(** ** The watcher of the data directory *)

Inductive watcherLine :=
| WarnNoDataDirectory
| LogDetectedUpdate.

(** [armed]: [fs.watch] was called; [pending]: [reloadTimeout] holds a
    timer that has neither fired nor been cleared; [printed]: the lines of
    the watcher on the console. *)
Record watcher := Watcher {
  armed : bool;
  pending : bool;
  printed : list watcherLine
}.

(** An event of the directory with its file name, or the 500 ms of the
    pending timer elapsing. *)
Inductive watchEvent :=
| Changed (filename : option jsstring)
| Elapsed.

Section Watcher.

Context {host : Host}.
Variable secretBuffer : list byte.

(** [path.resolve(dataDir, filename) === ENCRYPTED_DATA_PATH]. *)
Variable isDataFile : jsstring -> bool.

Definition scheduleDataReload (dirExists : bool) (w : world) : world * watcher :=
  if negb dirExists
  then (setDirectory w [] (fuse w), Watcher false false [WarnNoDataDirectory])
  else (w, Watcher true false []).

(** The callback of [fs.watch]: a new timer replaces the pending one. *)
Definition onWatch (t : watcher) (filename : option jsstring) : watcher :=
  match filename with
  | None => t
  | Some f =>
      if negb (JS.truthy f) then t
      else if negb (isDataFile f) then t
      else Watcher (armed t) true (printed t)
  end.

Definition watchStep (s : world * watcher) (ev : watchEvent) : world * watcher :=
  let (w, t) := s in
  if negb (armed t) then s
  else
    match ev with
    | Changed filename => (w, onWatch t filename)
    | Elapsed =>
        if pending t
        then (loadClients secretBuffer w,
              Watcher (armed t) false (printed t ++ [LogDetectedUpdate]))
        else s
    end.

Definition watchRun (s : world * watcher) (evs : list watchEvent) : world * watcher :=
  fold_left watchStep evs s.

(** An event of the directory that names the data file. *)
Definition relevant (filename : option jsstring) : bool :=
  match filename with
  | None => false
  | Some f => JS.truthy f && isDataFile f
  end.

End Watcher.

(* ================================================================== *)
(** ** Predicates of the properties *)

(** The number a string of decimal digits writes. *)
Definition decimalValue (s : jsstring) : N :=
  fold_left (fun a c => a * 10 + (c - 48)) s 0.

(** A record as loading leaves it: a name, and no white space around any
    of its three cells. *)
Definition normalised (c : client) : Prop :=
  name c <> []
  /\ trim (name c) = name c
  /\ trim (manager c) = manager c
  /\ trim (code c) = code c.

(** The index is the one built over the current collection, and there is
    none exactly when the collection is empty. *)
Definition indexed (w : world) : Prop :=
  fuse w = match clients w with
           | [] => None
           | _ :: _ => Some (clients w)
           end.

(* ================================================================== *)
(** ** A second host, with the exporter *)

Module Demo.

(** [JSON.stringify(v)]. *)
Fixpoint compact (v : json) : jsstring :=
  match v with
  | JNull => lit "null"
  | JBool true => lit "true"
  | JBool false => lit "false"
  | JNum t => t
  | JStr s => Sample.quote s
  | JArr items => lit "[" ++ join (lit ",") (map compact items) ++ lit "]"
  | JObj props =>
      lit "{"
      ++ join (lit ",")
           ((fix each (l : list (jsstring * json)) : list jsstring :=
               match l with
               | [] => []
               | (k, x) :: l' => (Sample.quote k ++ lit ":" ++ compact x) :: each l'
               end) props)
      ++ lit "}"
  end.

(** Texts of Basic Latin only are written here, one byte per unit. *)
Definition exportHost : ExportHost := {|
  JSON_stringifyCompact := compact;
  Buffer_fromString := map Bytes.ofN
|}.

(** Three rows of a sheet: cells to trim, a number as code, a blank name. *)
Definition rows : list json :=
  [ JObj [ (lit "Наименование", JStr (lit "  Acme Corp "));
           (lit "Основной менеджер", JStr (lit "Ivan"));
           (lit "Код", JNum (lit "17")) ];
    JObj [ (lit "Наименование", JStr (lit "  "));
           (lit "Основной менеджер", JStr (lit "Petr"));
           (lit "Код", JStr []) ];
    JObj [ (lit "Наименование", JStr (lit "Beta"));
           (lit "Основной менеджер", JStr []);
           (lit "Код", JStr []) ] ].

Definition book : excel := Workbook [(lit "Sheet1", rows)].

Definition exported : list client :=
  [ Client (lit "Acme Corp") (lit "Ivan") (lit "17"); Client (lit "Beta") [] [] ].

Definition serialized : list byte :=
  map Bytes.ofN (compact (JArr (map toJson exported))).

Definition payload : json :=
  payloadOf (Base64.encode Sample.nonce)
            (Base64.encode (GCM.ctr Sample.key Sample.nonce serialized))
            (Base64.encode
               (GCM.tag Sample.key Sample.nonce
                  (GCM.ctr Sample.key Sample.nonce serialized))).

(** A reader that knows the texts written, with or without indentation,
    for these values, and rejects every other text. *)
Definition known : list json :=
  [ JArr []; JArr (map toJson exported); payload;
    JArr [JStr (lit "42")]; JArr [JStr (lit "42"); JStr (lit "7")] ].

Definition parse (s : jsstring) : option json :=
  find (fun v => streq (Sample.print [] v) s || streq (compact v) s) known.

Definition host : Host := {|
  JSON_parse := parse;
  JSON_stringify := Sample.print [];
  Buffer_toString := fun b => utf16_of_utf8 (map Bytes.toN b);
  Buffer_fromObject := fun _ => None;
  toLowerCase := Sample.lower;
  Fuse_search := Sample.search
|}.

(** The name of the only file the watcher reacts to. *)
Definition isDataFile (f : jsstring) : bool := streq f (lit "encrypted_clients.json").

End Demo.

(* ================================================================== *)
(** * Properties *)

Ltac Zify.zify_post_hook ::= Z.to_euclidean_division_equations.

(** ** Bytes *)

Lemma toN_lt (b : byte) : Bytes.toN b < 256.
Proof.
  unfold Bytes.toN. pose proof (Byte.to_N_bounded b) as Hb. lia.
Qed.

Lemma ofN_toN (b : byte) : Bytes.ofN (Bytes.toN b) = b.
Proof.
  unfold Bytes.ofN. rewrite N.mod_small by apply toN_lt.
  unfold Bytes.toN. now rewrite Byte.of_to_N.
Qed.

Lemma toN_ofN (n : N) : Bytes.toN (Bytes.ofN n) = n mod 256.
Proof.
  unfold Bytes.ofN, Bytes.toN.
  destruct (Byte.of_N (n mod 256)) as [b|] eqn:E.
  - now apply Byte.to_of_N.
  - exfalso. pose proof (Byte.to_of_N_option_map (n mod 256)) as H.
    rewrite E in H. simpl in H.
    assert (n mod 256 < 256) by (apply N.mod_lt; lia).
    destruct (N.leb_spec (n mod 256) 255); [discriminate | lia].
Qed.

Lemma lxor_lt_256 (a b : N) : a < 256 -> b < 256 -> N.lxor a b < 256.
Proof.
  intros Ha Hb.
  destruct (N.eq_dec (N.lxor a b) 0) as [E|E]; [rewrite E; lia|].
  change 256 with (2 ^ 8). apply N.log2_lt_pow2; [lia|].
  pose proof (N.log2_lxor a b) as Hx.
  assert (La : N.log2 a < 8).
  { destruct (N.eq_dec a 0) as [->|]; [cbn; lia|].
    apply N.log2_lt_pow2; [lia | exact Ha]. }
  assert (Lb : N.log2 b < 8).
  { destruct (N.eq_dec b 0) as [->|]; [cbn; lia|].
    apply N.log2_lt_pow2; [lia | exact Hb]. }
  lia.
Qed.

Lemma xor_involutive (a b : byte) : Bytes.xor (Bytes.xor a b) b = a.
Proof.
  unfold Bytes.xor. rewrite toN_ofN.
  rewrite N.mod_small by (apply lxor_lt_256; apply toN_lt).
  rewrite N.lxor_assoc, N.lxor_nilpotent, N.lxor_0_r. apply ofN_toN.
Qed.

Lemma xors_length (data stream : list byte) :
  (length data <= length stream)%nat ->
  length (Bytes.xors data stream) = length data.
Proof.
  revert stream. induction data as [|d data IH]; intros [|s stream] H;
    simpl in *; try lia.
  rewrite IH; lia.
Qed.

Lemma xors_involutive (data stream : list byte) :
  (length data <= length stream)%nat ->
  Bytes.xors (Bytes.xors data stream) stream = data.
Proof.
  revert stream. induction data as [|d data IH]; intros [|s stream] H;
    simpl in *; try reflexivity; try lia.
  rewrite xor_involutive, IH; [reflexivity | lia].
Qed.

Lemma bytes_eqb_eq (a b : list byte) : Bytes.eqb a b = true <-> a = b.
Proof.
  revert b. induction a as [|x a IH]; intros [|y b]; simpl;
    try (split; [discriminate || reflexivity | discriminate || reflexivity]).
  rewrite andb_true_iff, IH. split.
  - intros [Hxy ->]. apply Byte.byte_dec_bl in Hxy. now subst.
  - intros E. injection E as -> ->. split; [|reflexivity].
    now apply Byte.byte_dec_lb.
Qed.

Lemma unbe_length (len : nat) (n : N) : length (Bytes.unbe len n) = len.
Proof.
  revert n. induction len as [|l IH]; intro n; simpl; [reflexivity|].
  rewrite length_app, IH. simpl. lia.
Qed.

(** ** Base64 *)

Lemma below_64 (P : N -> bool) :
  forallb P (map N.of_nat (seq 0 64)) = true ->
  forall n, n < 64 -> P n = true.
Proof.
  intros H n Hn. rewrite forallb_forall in H. apply H.
  apply in_map_iff. exists (N.to_nat n). split; [lia|].
  apply in_seq. lia.
Qed.

Lemma value_digit (n : N) : n < 64 -> Base64.value (Base64.digit n) = Some n.
Proof.
  intro Hn.
  pose proof (@below_64
    (fun n => match Base64.value (Base64.digit n) with
              | Some m => m =? n
              | None => false
              end) eq_refl n Hn) as H.
  cbv beta in H. destruct (Base64.value (Base64.digit n)); [|discriminate].
  apply N.eqb_eq in H. now subst.
Qed.

Lemma digit_not_pad (n : N) :
  n < 64 -> (Base64.unit8 (Base64.digit n) =? Base64.pad) = false.
Proof.
  intro Hn.
  pose proof (@below_64 (fun n => negb (Base64.unit8 (Base64.digit n) =? Base64.pad))
                eq_refl n Hn) as H.
  cbv beta in H. now apply negb_true_iff in H.
Qed.

Lemma sextets_digit (n : N) (s : jsstring) :
  n < 64 -> Base64.sextets (Base64.digit n :: s) = n :: Base64.sextets s.
Proof.
  intro Hn. cbn [Base64.sextets]. now rewrite digit_not_pad, value_digit.
Qed.

(** A code unit above 255 counts as its low byte: U+0441 reads as the
    letter A, and U+013D ends the text as the padding character does. *)
Example decode_low_byte :
  Base64.decode [1089; 81; 73; 68] = Base64.decode (lit "AQID")
  /\ Base64.decode (lit "AQID" ++ [317] ++ lit "AQID") = Base64.decode (lit "AQID").
Proof. split; reflexivity. Qed.

Lemma sextets_pad (s : jsstring) : Base64.sextets (Base64.pad :: s) = [].
Proof. reflexivity. Qed.

Lemma ofN_eq (n : N) (b : byte) : n = Bytes.toN b -> Bytes.ofN n = b.
Proof. intros ->. apply ofN_toN. Qed.

Lemma decode_encode_le (n : nat) :
  forall bs, (length bs <= n)%nat -> Base64.decode (Base64.encode bs) = bs.
Proof.
  unfold Base64.decode.
  induction n as [n IH] using lt_wf_ind. intros bs Hlen.
  destruct bs as [|a [|b [|c rest]]].
  - reflexivity.
  - pose proof (toN_lt a).
    cbn [Base64.encode].
    rewrite !sextets_digit, sextets_pad by lia.
    cbn [Base64.pack]. f_equal. apply ofN_eq. lia.
  - pose proof (toN_lt a). pose proof (toN_lt b).
    cbn [Base64.encode].
    rewrite !sextets_digit, sextets_pad by lia.
    cbn [Base64.pack]. f_equal; [|f_equal]; apply ofN_eq; lia.
  - pose proof (toN_lt a). pose proof (toN_lt b). pose proof (toN_lt c).
    cbn [Base64.encode].
    rewrite !sextets_digit by lia.
    cbn [Base64.pack].
    rewrite (IH (length rest)); [| simpl in Hlen; lia | lia].
    f_equal; [|f_equal; [|f_equal]]; apply ofN_eq; lia.
Qed.

(** Decoding what [toString('base64')] wrote gives the buffer back. *)
Lemma decode_encode (bs : list byte) : Base64.decode (Base64.encode bs) = bs.
Proof. apply (decode_encode_le (n := length bs)). lia. Qed.

Lemma encode_truthy (bs : list byte) :
  JS.truthy (Base64.encode bs) = negb (Nat.eqb (length bs) 0).
Proof. destruct bs as [|a [|b [|c rest]]]; reflexivity. Qed.

(** ** The cipher *)

(** FIPS 197, appendix C.3. *)
Example aes256_fips197 :
  AES.encryptBlock (map Bytes.ofN (map N.of_nat (seq 0 32)))
                   0x00112233445566778899aabbccddeeff
  = 0x8ea2b7ca516745bfeafc49904b496089.
Proof. vm_compute. reflexivity. Qed.

(** Test cases 13 and 14 of the GCM specification: a zero key, a zero
    nonce, no plaintext and then one zero block. *)
Example gcm_case_13 :
  Bytes.be (GCM.tag (repeat x00 32) (repeat x00 12) [])
  = 0x530f8afbc74536b9a963b4f1c4cb738b.
Proof. vm_compute. reflexivity. Qed.

Example gcm_case_14 :
  let c := GCM.ctr (repeat x00 32) (repeat x00 12) (repeat x00 16) in
  Bytes.be c = 0xcea7403d4d606b6e074ec5d3baf39d18
  /\ Bytes.be (GCM.tag (repeat x00 32) (repeat x00 12) c)
     = 0xd0d1c8a799996bf0265b98b5d48ab919.
Proof. vm_compute. split; reflexivity. Qed.

(** Test case 15: four blocks under a key and a nonce that are not zero. *)
Example gcm_case_15 :
  let key := Bytes.unbe 32
    0xfeffe9928665731c6d6a8f9467308308feffe9928665731c6d6a8f9467308308 in
  let iv := Bytes.unbe 12 0xcafebabefacedbaddecaf888 in
  let p := Bytes.unbe 64
    0xd9313225f88406e5a55909c5aff5269a86a7a9531534f7da2e4c303d8a318a721c3c0c95956809532fcf0e2449a6b525b16aedf5aa0de657ba637b391aafd255 in
  Bytes.be (GCM.ctr key iv p)
  = 0x522dc1f099567d07f47f37a32a84427d643a8cdcbfe5c0c97598a2bd2555d1aa8cb08e48590dbb3da7b08b1056828838c5f61e6393ba7a0abcc9f662898015ad
  /\ Bytes.be (GCM.tag key iv (GCM.ctr key iv p))
     = 0xb094dac5d93471bdec1a502270e3cc6c.
Proof. vm_compute. split; reflexivity. Qed.

(** The ciphertexts of test cases 17 and 18: nonces of 8 and of 60 bytes,
    for which J0 is a hash of the nonce. *)
Example gcm_case_17_18 :
  let key := Bytes.unbe 32
    0xfeffe9928665731c6d6a8f9467308308feffe9928665731c6d6a8f9467308308 in
  let p := Bytes.unbe 60
    0xd9313225f88406e5a55909c5aff5269a86a7a9531534f7da2e4c303d8a318a721c3c0c95956809532fcf0e2449a6b525b16aedf5aa0de657ba637b39 in
  Bytes.be (GCM.ctr key (Bytes.unbe 8 0xcafebabefacedbad) p)
  = 0xc3762df1ca787d32ae47c13bf19844cbaf1ae14d0b976afac52ff7d79bba9de0feb582d33934a4f0954cc2363bc73f7862ac430e64abe499f47c9b1f
  /\ Bytes.be (GCM.ctr key
                 (Bytes.unbe 60
                    0x9313225df88406e555909c5aff5269aa6a7a9538534f7da1e4c303d2a318a728c3c0c95156809539fcf0e2429a6b525416aedbf5a0de6a57a637b39b)
                 p)
     = 0x5a8def2f0c9e53f1f75d7853659e2a20eeb2b22aafde6419a058ab4f6f746bf40fc0c3b780f244452da3ebf1c5d82cdea2418997200ef82e44ae7e3f.
Proof. vm_compute. split; reflexivity. Qed.

Lemma keystream_length (n : nat) (key : list byte) (c : N) :
  length (GCM.keystream n key c) = (16 * n)%nat.
Proof.
  revert c. induction n as [|n IH]; intro c; [reflexivity|].
  cbn [GCM.keystream]. rewrite length_app, unbe_length, IH. lia.
Qed.

Lemma ctr_length (key iv data : list byte) :
  length (GCM.ctr key iv data) = length data.
Proof.
  unfold GCM.ctr. apply xors_length. rewrite keystream_length.
  pose proof (Nat.div_mod_eq (length data + 15) 16).
  pose proof (Nat.mod_upper_bound (length data + 15) 16). lia.
Qed.

(** Counter mode is its own inverse. *)
Lemma ctr_involutive (key iv data : list byte) :
  GCM.ctr key iv (GCM.ctr key iv data) = data.
Proof.
  unfold GCM.ctr at 1. rewrite ctr_length. unfold GCM.ctr.
  apply xors_involutive. rewrite keystream_length.
  pose proof (Nat.div_mod_eq (length data + 15) 16).
  pose proof (Nat.mod_upper_bound (length data + 15) 16). lia.
Qed.

Lemma tag_length (key iv c : list byte) : length (GCM.tag key iv c) = 16%nat.
Proof. apply unbe_length. Qed.

Lemma bytes_eqb_refl (a : list byte) : Bytes.eqb a a = true.
Proof. now apply bytes_eqb_eq. Qed.

Lemma xor_changes (b : byte) (m : N) : 0 < m < 256 -> Bytes.xor b (Bytes.ofN m) <> b.
Proof.
  intros Hm E. unfold Bytes.xor in E. rewrite toN_ofN, (N.mod_small m) in E by lia.
  apply (f_equal Bytes.toN) in E. rewrite toN_ofN in E.
  rewrite N.mod_small in E by (apply lxor_lt_256; [apply toN_lt | lia]).
  assert (N.lxor (Bytes.toN b) (N.lxor (Bytes.toN b) m) = 0) as Z
    by (rewrite E; apply N.lxor_nilpotent).
  rewrite <- N.lxor_assoc, N.lxor_nilpotent, N.lxor_0_l in Z. lia.
Qed.

Lemma flipBit_length (i : nat) (bs : list byte) : length (flipBit i bs) = length bs.
Proof.
  revert i. induction bs as [|b rest IH]; intro i; simpl; [reflexivity|].
  destruct (Nat.ltb i 8); simpl; [reflexivity | now rewrite IH].
Qed.

(** Flipping a bit the buffer has changes the buffer. *)
Lemma flipBit_changes (i : nat) (bs : list byte) :
  (i < 8 * length bs)%nat -> flipBit i bs <> bs.
Proof.
  revert i. induction bs as [|b rest IH]; intros i Hi; simpl in *; [lia|].
  destruct (Nat.ltb_spec i 8) as [Hlt|Hge].
  - intro E. injection E as E.
    apply (@xor_changes b (2 ^ N.of_nat i)); [|exact E].
    split.
    + apply N.neq_0_lt_0. apply N.pow_nonzero. lia.
    + change 256 with (2 ^ 8). apply N.pow_lt_mono_r; lia.
  - intro E. injection E as E. apply (IH (i - 8)%nat); [lia | exact E].
Qed.

(** ** Decrypting a payload *)

Section Decrypt.

Context {host : Host}.
Variable key : list byte.

(** On a payload of three strings the whole of [decryptPayload] is the
    guard, the two checks of the cipher and the tag comparison. *)
Lemma decryptPayload_strings (iv data tag : jsstring) :
  decryptPayload key (payloadOf iv data tag)
  = if negb (JS.truthy iv) || negb (JS.truthy data) || negb (JS.truthy tag)
    then throw (Error "Invalid encrypted payload structure.")
    else
      _ <- Crypto.init key (Base64.decode iv) ;;
      _ <- Crypto.setAuthTag (Base64.decode tag) ;;
      Crypto.updateFinal key (Base64.decode iv) (Base64.decode tag)
                         (Base64.decode data).
Proof. reflexivity. Qed.

Lemma encryptData_ok (iv p : list byte) :
  length key = 32%nat -> iv <> [] ->
  Exporter.encryptData key iv p
  = ok (payloadOf (Base64.encode iv)
                  (Base64.encode (GCM.ctr key iv p))
                  (Base64.encode (GCM.tag key iv (GCM.ctr key iv p)))).
Proof.
  intros Hk Hiv. unfold Exporter.encryptData, Crypto.init.
  rewrite Hk. destruct iv; [contradiction | reflexivity].
Qed.

Lemma init_ok (iv : list byte) :
  length key = 32%nat -> iv <> [] -> Crypto.init key iv = ok tt.
Proof.
  intros Hk Hiv. unfold Crypto.init. rewrite Hk.
  destruct iv; [contradiction | reflexivity].
Qed.

Lemma nonempty_truthy (bs : list byte) :
  bs <> [] -> JS.truthy (Base64.encode bs) = true.
Proof. rewrite encode_truthy. destruct bs; [contradiction | reflexivity]. Qed.

(** What the decipher does with the strings the exporter wrote, the tag
    replaced by any 16 bytes. *)
Lemma decrypt_exported (iv p t : list byte) :
  length key = 32%nat -> iv <> [] -> p <> [] -> length t = 16%nat ->
  decryptPayload key
    (payloadOf (Base64.encode iv) (Base64.encode (GCM.ctr key iv p))
               (Base64.encode t))
  = if Bytes.eqb t (GCM.tag key iv (GCM.ctr key iv p)) then ok p
    else throw AuthenticationFailed.
Proof.
  intros Hk Hiv Hp Ht. rewrite decryptPayload_strings.
  assert (Hc : GCM.ctr key iv p <> []).
  { intro E. apply (f_equal (@length byte)) in E.
    rewrite ctr_length in E. destruct p; [contradiction | discriminate]. }
  assert (Htn : t <> []) by (intros ->; discriminate).
  rewrite !nonempty_truthy by assumption. cbn [negb orb].
  rewrite !decode_encode, init_ok by assumption.
  unfold Crypto.setAuthTag. rewrite Ht.
  cbn [bind ok GCM.validTagLength Nat.eqb Nat.leb orb andb].
  unfold Crypto.updateFinal. rewrite Ht.
  rewrite firstn_all2 by (rewrite tag_length; lia).
  rewrite ctr_involutive. reflexivity.
Qed.

End Decrypt.

(** ** C1: encrypt then decrypt *)

(** The calls on the cipher alone (lines 114 to 124) undo [encryptData]
    on every plaintext, the empty one included. *)
Lemma cipher_roundtrip (key iv p : list byte) :
  Crypto.updateFinal key iv (GCM.tag key iv (GCM.ctr key iv p))
                     (GCM.ctr key iv p) = ok p.
Proof.
  unfold Crypto.updateFinal. rewrite tag_length.
  rewrite firstn_all2 by (rewrite tag_length; lia).
  now rewrite bytes_eqb_refl, ctr_involutive.
Qed.

(** C1, as amended: for every 32-byte key, every 12-byte nonce drawn by
    [encryptData] and every plaintext that is not empty, [encryptData]
    returns a payload and [decryptPayload] under the same key returns the
    plaintext from that payload. *)
Theorem C1_roundtrip {host : Host} (key iv p : list byte) :
  length key = 32%nat -> length iv = 12%nat -> p <> [] ->
  exists payload,
    Exporter.encryptData key iv p = ok payload
    /\ decryptPayload key payload = ok p.
Proof.
  intros Hk Hiv Hp.
  assert (Hiv' : iv <> []) by (intros ->; discriminate).
  eexists. split; [apply encryptData_ok; assumption|].
  rewrite decrypt_exported; try assumption; [|apply tag_length].
  now rewrite bytes_eqb_refl.
Qed.

Lemma C1_roundtrip_witness :
  exists payload,
    Exporter.encryptData Sample.key Sample.nonce Sample.plaintext = ok payload
    /\ @decryptPayload Sample.host Sample.key payload = ok Sample.plaintext.
Proof.
  apply (@C1_roundtrip Sample.host Sample.key Sample.nonce Sample.plaintext);
    [reflexivity | reflexivity | discriminate].
Defined.

(** C1 as stated fails on the empty plaintext: its ciphertext is empty,
    [data] is the empty string, and the guard on the three fields throws
    before any decryption. *)
Lemma C1_empty_plaintext_rejected :
  exists payload,
    Exporter.encryptData Sample.key Sample.nonce [] = ok payload
    /\ @decryptPayload Sample.host Sample.key payload
       = throw (Error "Invalid encrypted payload structure.")
    /\ @decryptPayload Sample.host Sample.key payload <> ok [].
Proof.
  exists (payloadOf (Base64.encode Sample.nonce) []
            (Base64.encode (GCM.tag Sample.key Sample.nonce []))).
  split; [|split].
  - vm_compute. reflexivity.
  - vm_compute. reflexivity.
  - vm_compute. discriminate.
Qed.

(** ** C4: decryption fails closed *)

Section FailClosed.

Context {host : Host}.
Variable key : list byte.

(** Data comes out only through the tag comparison. *)
Lemma decryptPayload_sound (payload : json) (p : list byte) :
  decryptPayload key payload = ok p -> authentic key payload p.
Proof.
  unfold decryptPayload, bind. intro H.
  destruct (get payload (lit "iv")) as [|iv] eqn:Giv; [discriminate|].
  destruct (get payload (lit "data")) as [|data] eqn:Gdata; [discriminate|].
  destruct (get payload (lit "tag")) as [|tag] eqn:Gtag; [discriminate|].
  destruct (truthy iv) eqn:Tiv; [|discriminate].
  destruct (truthy data) eqn:Tdata; [|discriminate].
  destruct (truthy tag) eqn:Ttag; [|discriminate].
  cbn [negb orb] in H.
  destruct (bufferFrom iv) as [|ivBuffer] eqn:Biv; [discriminate|].
  unfold Crypto.init in H.
  destruct (Nat.eqb (length ivBuffer) 0) eqn:Hiv; [discriminate|].
  destruct (Nat.eqb (length key) 32) eqn:Hk; [|discriminate].
  cbn [negb ok] in H.
  destruct (bufferFrom tag) as [|tagBuffer] eqn:Btag; [discriminate|].
  unfold Crypto.setAuthTag in H.
  destruct (GCM.validTagLength (length tagBuffer)) eqn:Hlen; [|discriminate].
  cbn [ok] in H.
  destruct (bufferFrom data) as [|dataBuffer] eqn:Bdata; [discriminate|].
  unfold Crypto.updateFinal in H.
  destruct (Bytes.eqb tagBuffer _) eqn:Heq; [|discriminate].
  injection H as <-. apply bytes_eqb_eq in Heq. apply Nat.eqb_eq in Hk.
  exists iv, data, tag, ivBuffer, dataBuffer, tagBuffer.
  repeat split; try assumption; try reflexivity.
  intros ->. discriminate.
Qed.

Lemma decryptPayload_complete (payload : json) (p : list byte) :
  authentic key payload p -> decryptPayload key payload = ok p.
Proof.
  intros (iv & data & tag & ivBuffer & dataBuffer & tagBuffer & Giv & Gdata
          & Gtag & Tiv & Tdata & Ttag & Biv & Bdata & Btag & Hk & Hiv & Hlen
          & Heq & ->).
  unfold decryptPayload. rewrite Giv, Gdata, Gtag. cbn [bind ok].
  rewrite Tiv, Tdata, Ttag. cbn [negb orb].
  rewrite Biv. cbn [bind ok]. rewrite init_ok by assumption.
  rewrite Btag. cbn [bind ok]. unfold Crypto.setAuthTag. rewrite Hlen.
  rewrite Bdata. cbn [bind ok]. unfold Crypto.updateFinal.
  rewrite <- Heq, bytes_eqb_refl. reflexivity.
Qed.

(** A field that is missing, null or empty stops at the guard. *)
Lemma decryptPayload_guard (payload : json) (iv data tag : option json) :
  get payload (lit "iv") = ok iv ->
  get payload (lit "data") = ok data ->
  get payload (lit "tag") = ok tag ->
  truthy iv = false \/ truthy data = false \/ truthy tag = false ->
  decryptPayload key payload
  = throw (Error "Invalid encrypted payload structure.").
Proof.
  intros Hi Hd Ht Hf. unfold decryptPayload. rewrite Hi, Hd, Ht.
  cbn [bind ok].
  destruct Hf as [-> | [-> | ->]]; cbn [negb orb];
    rewrite ?orb_true_r; reflexivity.
Qed.

(** One flipped bit in the tag the exporter wrote. *)
Lemma decryptPayload_flipped (iv p : list byte) (i : nat) :
  length key = 32%nat -> iv <> [] -> (i < 128)%nat ->
  decryptPayload key
    (payloadOf (Base64.encode iv) (Base64.encode (GCM.ctr key iv p))
       (Base64.encode (flipBit i (GCM.tag key iv (GCM.ctr key iv p)))))
  = throw (match p with
           | [] => Error "Invalid encrypted payload structure."
           | _ :: _ => AuthenticationFailed
           end).
Proof.
  intros Hk Hiv Hi. destruct p as [|b p].
  - apply decryptPayload_guard with
      (iv := Some (JStr (Base64.encode iv))) (data := Some (JStr []))
      (tag := Some (JStr (Base64.encode (flipBit i (GCM.tag key iv [])))));
      try reflexivity.
    right. left. reflexivity.
  - rewrite decrypt_exported; try assumption; try discriminate.
    + destruct (Bytes.eqb _ _) eqn:E; [|reflexivity].
      apply bytes_eqb_eq in E. exfalso.
      apply (@flipBit_changes i (GCM.tag key iv (GCM.ctr key iv (b :: p))));
        [rewrite tag_length; lia | exact E].
    + now rewrite flipBit_length, tag_length.
Qed.

End FailClosed.

(** C4, as amended: under a 32-byte key, [decryptPayload] returns data
    exactly when the payload is [authentic]: its three fields are truthy
    and turn into buffers, the nonce has at least one byte, the tag has 4,
    8 or 12 to 16 bytes and equals the leading bytes of the tag computed
    over the ciphertext; the data is then the whole plaintext. Whenever a
    field is missing an [Error] is thrown, and a payload written by
    [encryptData] with one bit of its tag flipped is refused. *)
Theorem C4_fails_closed {host : Host} (key iv plaintext : list byte) (i : nat) :
  length key = 32%nat -> iv <> [] -> (i < 128)%nat ->
  (forall payload p, decryptPayload key payload = ok p <-> authentic key payload p)
  /\ (forall props,
        lookup (lit "iv") props = None \/ lookup (lit "data") props = None
        \/ lookup (lit "tag") props = None ->
        decryptPayload key (JObj props)
        = throw (Error "Invalid encrypted payload structure."))
  /\ (exists e,
        decryptPayload key
          (payloadOf (Base64.encode iv)
             (Base64.encode (GCM.ctr key iv plaintext))
             (Base64.encode
                (flipBit i (GCM.tag key iv (GCM.ctr key iv plaintext)))))
        = throw e).
Proof.
  intros Hk Hiv Hi. split; [|split].
  - intros payload p. split;
      [apply decryptPayload_sound | apply decryptPayload_complete].
  - intros props Hmiss.
    apply decryptPayload_guard with
      (iv := lookup (lit "iv") props) (data := lookup (lit "data") props)
      (tag := lookup (lit "tag") props); try reflexivity.
    destruct Hmiss as [-> | [-> | ->]]; auto.
  - eexists. apply decryptPayload_flipped; assumption.
Qed.

Lemma C4_fails_closed_witness :
  exists e,
    @decryptPayload Sample.host Sample.key
      (payloadOf (Base64.encode Sample.nonce)
         (Base64.encode (GCM.ctr Sample.key Sample.nonce Sample.plaintext))
         (Base64.encode
            (flipBit 77 (GCM.tag Sample.key Sample.nonce
                           (GCM.ctr Sample.key Sample.nonce Sample.plaintext)))))
    = throw e.
Proof.
  apply (@C4_fails_closed Sample.host Sample.key Sample.nonce Sample.plaintext 77);
    [reflexivity | discriminate | apply Nat.ltb_lt; reflexivity].
Defined.

(** C4 as stated fails on malformed base64: a character outside the
    alphabet in front of the tag is skipped by [Buffer.from], and the
    payload decrypts as before. *)
Lemma C4_malformed_base64_accepted :
  Exporter.encryptData Sample.key Sample.nonce Sample.plaintext
  = ok (payloadOf (Base64.encode Sample.nonce)
                  (Base64.encode Sample.ciphertext)
                  (Base64.encode Sample.authTag))
  /\ @decryptPayload Sample.host Sample.key
       (payloadOf (Base64.encode Sample.nonce)
                  (Base64.encode Sample.ciphertext)
                  (lit "*" ++ Base64.encode Sample.authTag))
     = ok Sample.plaintext.
Proof. vm_compute. split; reflexivity. Qed.

(** ** Strings *)

Lemma streq_eq (a b : jsstring) : streq a b = true <-> a = b.
Proof.
  revert b. induction a as [|x a IH]; intros [|y b]; simpl;
    try (split; [discriminate || reflexivity | discriminate || reflexivity]).
  rewrite andb_true_iff, N.eqb_eq, IH. split.
  - intros [-> ->]. reflexivity.
  - intros E. injection E as -> ->. now split.
Qed.

Lemma streq_refl (a : jsstring) : streq a a = true.
Proof. now apply streq_eq. Qed.

Lemma streq_neq (a b : jsstring) : streq a b = false <-> a <> b.
Proof.
  rewrite <- streq_eq. destruct (streq a b); split; congruence.
Qed.

Lemma trimStart_nil (s : jsstring) :
  trimStart s = [] <-> forallb isWhiteSpace s = true.
Proof.
  induction s as [|c s IH]; simpl; [tauto|].
  destruct (isWhiteSpace c); simpl; [exact IH | split; discriminate].
Qed.

Lemma trimStart_split (s : jsstring) :
  exists l, s = l ++ trimStart s
            /\ forallb isWhiteSpace l = true
            /\ match trimStart s with
               | [] => True
               | c :: _ => isWhiteSpace c = false
               end.
Proof.
  induction s as [|c s (l & E & Hl & Hh)]; simpl.
  - exists []. auto.
  - destruct (isWhiteSpace c) eqn:W.
    + exists (c :: l). simpl. rewrite W, Hl. repeat split; [congruence | exact Hh].
    + exists []. simpl. auto.
Qed.

Lemma forallb_rev (f : N -> bool) (l : list N) :
  forallb f (rev l) = forallb f l.
Proof.
  induction l as [|x l IH]; simpl; [reflexivity|].
  rewrite forallb_app, IH. simpl. rewrite andb_true_r. apply andb_comm.
Qed.

Lemma trimStart_snoc (u : jsstring) (c : N) :
  isWhiteSpace c = false -> exists v, trimStart (u ++ [c]) = v ++ [c].
Proof.
  intro W. induction u as [|x u (v & IH)]; simpl.
  - rewrite W. now exists [].
  - destruct (isWhiteSpace x); [now exists v | now exists (x :: u)].
Qed.

(** A string that begins with no white space keeps its first unit when
    white space is stripped from its end. *)
Lemma trimEnd_head (c : N) (t : jsstring) :
  isWhiteSpace c = false -> exists t', trimEnd (c :: t) = c :: t'.
Proof.
  intro W. unfold trimEnd. simpl rev.
  destruct (@trimStart_snoc (rev t) c W) as (v & ->).
  rewrite rev_app_distr. simpl. eauto.
Qed.

Lemma trim_spec (s : jsstring) : trimmedOf s (trim s).
Proof.
  unfold trimmedOf, trim.
  destruct (trimStart_split s) as (l & El & Hl & Hh).
  set (m := trimStart s) in *.
  unfold trimEnd.
  destruct (trimStart_split (rev m)) as (r & Er & Hr & Hrh).
  exists l, (rev r). rewrite rev_involutive.
  repeat split.
  - rewrite El at 1. f_equal.
    apply (f_equal (@rev N)) in Er. rewrite rev_involutive, rev_app_distr in Er.
    exact Er.
  - exact Hl.
  - now rewrite forallb_rev.
  - destruct m as [|c t]; [simpl; exact I|].
    destruct (@trimEnd_head c t Hh) as (t' & E). unfold trimEnd in E.
    rewrite E. exact Hh.
  - exact Hrh.
Qed.

Lemma trim_blank (s : jsstring) :
  forallb isWhiteSpace s = true -> trim s = [].
Proof.
  intro H. unfold trim. apply trimStart_nil in H. now rewrite H.
Qed.

Lemma trim_nil_blank (s : jsstring) :
  trim s = [] -> forallb isWhiteSpace s = true.
Proof.
  intro H. destruct (trim_spec s) as (l & r & E & Hl & Hr & _).
  rewrite H in E. simpl in E. rewrite E, forallb_app, Hl, Hr. reflexivity.
Qed.

(** The test [!s.trim()] of the source holds of the blank strings and of
    no other. *)
Lemma not_blank_truthy (s : jsstring) :
  forallb isWhiteSpace s = false -> JS.truthy (trim s) = true.
Proof.
  intro H. destruct (trim s) eqn:E; [|reflexivity].
  apply trim_nil_blank in E. congruence.
Qed.

(** ** C6: what loading keeps *)

Section Load.

Context {host : Host}.
Variable key : list byte.

Lemma normalizeCell_raw (v : option json) :
  rawCell v = true -> normalizeCell v = ok (specCell v).
Proof. destruct v as [[| | | | |]|]; simpl; intro H; try discriminate; reflexivity. Qed.

Lemma normalizeEntry_raw (entry : json) :
  rawRecord entry = true -> normalizeEntry entry = ok (specRecord entry).
Proof.
  destruct entry; simpl; try discriminate.
  rewrite !andb_true_iff. intros [[Hn Hm] Hc].
  unfold normalizeEntry. cbn [get bind ok].
  now rewrite (normalizeCell_raw _ Hn), (normalizeCell_raw _ Hm),
    (normalizeCell_raw _ Hc).
Qed.

Lemma mapM_normalizeEntry_raw (parsed : list json) :
  forallb rawRecord parsed = true ->
  mapM normalizeEntry parsed = ok (map specRecord parsed).
Proof.
  induction parsed as [|entry parsed IH]; simpl; [reflexivity|].
  rewrite andb_true_iff. intros [He Hp].
  now rewrite (normalizeEntry_raw _ He), (IH Hp).
Qed.

(** C6: when the file decrypts to a collection of raw records, the
    records loaded are, in order, the raw records with each of name,
    manager and code trimmed and a missing or null cell turned into the
    empty string, without those whose name is then empty; a record is
    kept or dropped by its name alone, whatever its manager and code. *)
Theorem C6_load_normalizes (raw : jsstring) (payload : json)
    (decrypted : list byte) (parsed : list json) :
  JSON_parse raw = Some payload ->
  decryptPayload key payload = ok decrypted ->
  JSON_parse (Buffer_toString decrypted) = Some (JArr parsed) ->
  forallb rawRecord parsed = true ->
  let loaded := fst (decryptClientsPayload key (Holds raw)) in
  loaded = filter (fun c => JS.truthy (name c)) (map specRecord parsed)
  /\ (forall c, In c loaded <->
                exists entry, In entry parsed /\ c = specRecord entry
                              /\ name c <> [])
  /\ (forall s, trimmedOf s (trim s)).
Proof.
  intros Hraw Hdec Hparse Hrec loaded.
  assert (E : loaded = filter (fun c => JS.truthy (name c)) (map specRecord parsed)).
  { unfold loaded, decryptClientsPayload, readClients.
    rewrite Hraw, Hdec. cbn [bind ok]. unfold parseClients.
    rewrite Hparse, (mapM_normalizeEntry_raw _ Hrec). reflexivity. }
  split; [exact E | split; [|apply trim_spec]].
  intro c. rewrite E, filter_In, in_map_iff. split.
  - intros [(entry & <- & Hin) Hn]. exists entry. repeat split; [exact Hin|].
    intro Z. rewrite Z in Hn. discriminate.
  - intros (entry & Hin & -> & Hn). split; [now exists entry|].
    destruct (name (specRecord entry)); [contradiction | reflexivity].
Qed.

End Load.

Lemma C6_load_normalizes_witness :
  fst (@decryptClientsPayload Sample.host Sample.key
         (Holds (Sample.print [] Sample.payload)))
  = [ Client (lit "Acme Corp") (lit "Ivan") (lit "A1");
      Client (lit "Beta") [] [] ].
Proof.
  destruct (@C6_load_normalizes Sample.host Sample.key
              (Sample.print [] Sample.payload) Sample.payload Sample.plaintext
              [ JObj [ (lit "name", JStr (lit "  Acme Corp "));
                       (lit "manager", JStr (lit "Ivan"));
                       (lit "code", JStr (lit " A1")) ];
                JObj [ (lit "name", JStr (lit "   "));
                       (lit "manager", JStr (lit "Petr")) ];
                JObj [ (lit "name", JStr (lit "Beta"));
                       (lit "manager", JNull);
                       (lit "code", JStr []) ] ])
    as [E _].
  - vm_compute. reflexivity.
  - vm_compute. reflexivity.
  - vm_compute. reflexivity.
  - vm_compute. reflexivity.
  - exact E.
Defined.

(** ** C5: a failed load leaves an empty directory *)

Section Degraded.

Context {host : Host}.
Variable key : list byte.

Lemma loadFails_throws (f : file) :
  loadFails key f -> exists e, readClients key f = throw e.
Proof.
  intros [ | raw Hraw | raw payload e Hraw Hdec
           | raw payload decrypted e Hraw Hdec Hparse]; simpl.
  - now exists IOError.
  - rewrite Hraw. now exists SyntaxError.
  - rewrite Hraw, Hdec. now exists e.
  - rewrite Hraw, Hdec. cbn [bind ok]. rewrite Hparse. now exists e.
Qed.

(** Every exception of [readClients] on a file that exists is one of the
    failures of [loadFails]. *)
Lemma throws_loadFails (f : file) (e : exn) :
  f <> Missing -> readClients key f = throw e -> loadFails key f.
Proof.
  intros Hf H. destruct f as [| |raw]; [contradiction | constructor |].
  simpl in H. destruct (JSON_parse raw) as [payload|] eqn:P;
    [|now apply FileNotJson].
  destruct (decryptPayload key payload) as [e'|decrypted] eqn:D.
  - now apply DecryptFails with (payload := payload) (e := e').
  - cbn [bind] in H.
    now apply ParseFails with (payload := payload) (decrypted := decrypted) (e := e).
Qed.

(** C5: when the data file is absent, or the load fails in one of the
    ways of [loadFails], [decryptClientsPayload] returns the empty
    collection and prints what went wrong; [loadClients] then leaves an
    empty directory and no index, prints the warning of the empty list,
    touches neither the access registry nor the messages, and every
    later search returns the empty result. *)
Theorem C5_failed_load_is_empty (w : world) :
  dataFile w = Missing \/ loadFails key (dataFile w) ->
  fst (decryptClientsPayload key (dataFile w)) = []
  /\ (snd (decryptClientsPayload key (dataFile w)) = [WarnDataFileNotFound]
      \/ exists e, snd (decryptClientsPayload key (dataFile w)) = [ErrorDecrypt e])
  /\ clients (loadClients key w) = []
  /\ fuse (loadClients key w) = None
  /\ In WarnListEmpty (console (loadClients key w))
  /\ authorizedUsers (loadClients key w) = authorizedUsers w
  /\ authFile (loadClients key w) = authFile w
  /\ sent (loadClients key w) = sent w
  /\ (forall q, findMatches (loadClients key w) q = []).
Proof.
  intro H.
  assert (E : exists entry,
             decryptClientsPayload key (dataFile w) = ([], [entry])
             /\ (entry = WarnDataFileNotFound \/ exists e, entry = ErrorDecrypt e)).
  { destruct H as [-> | F].
    - exists WarnDataFileNotFound. split; [reflexivity | now left].
    - destruct (loadFails_throws F) as (e & He). exists (ErrorDecrypt e).
      split; [|right; now exists e].
      unfold decryptClientsPayload. rewrite He.
      destruct F; reflexivity. }
  destruct E as (entry & E & Hentry).
  assert (L : loadClients key w
              = log (setDirectory (log w [entry]) [] None) [WarnListEmpty]).
  { unfold loadClients. rewrite E. reflexivity. }
  rewrite E, L. cbn [fst snd].
  repeat split; try reflexivity.
  - destruct Hentry as [-> | (e & ->)]; [now left | right; now exists e].
  - simpl. apply in_or_app. right. now left.
  - intro q. unfold findMatches. destruct (negb _); [reflexivity|].
    reflexivity.
Qed.

End Degraded.

Lemma C5_failed_load_is_empty_witness :
  clients (@loadClients Sample.host Sample.key
             (initial (Holds (lit "{}")) Missing)) = [].
Proof.
  apply (@C5_failed_load_is_empty Sample.host Sample.key
           (initial (Holds (lit "{}")) Missing)).
  right. apply DecryptFails with (payload := JObj [])
                                 (e := Error "Invalid encrypted payload structure.");
    reflexivity.
Defined.

(** ** C7 and C3: searching *)

Section Search.

Context {host : Host}.

(** C7: whatever the directory and the index, a query that is empty or
    made of white space only gets the empty result. *)
Theorem C7_blank_query (w : world) (query : jsstring) :
  forallb isWhiteSpace query = true -> findMatches w query = [].
Proof.
  intro H. unfold findMatches. now rewrite (trim_blank _ H).
Qed.

Lemma startsWith_app (q b : jsstring) : startsWith q (q ++ b) = true.
Proof.
  induction q as [|y q IH]; simpl; [reflexivity|].
  now rewrite N.eqb_refl, IH.
Qed.

Lemma includes_prefix (q s : jsstring) :
  startsWith q s = true -> includes q s = true.
Proof. intro H. destruct s; simpl; now rewrite H. Qed.

Lemma includes_app (q a b : jsstring) : includes q (a ++ q ++ b) = true.
Proof.
  induction a as [|x a IH].
  - change ([] ++ q ++ b) with (q ++ b). apply includes_prefix, startsWith_app.
  - simpl. rewrite IH. apply orb_true_r.
Qed.



End Search.

Lemma C7_blank_query_witness :
  @findMatches Sample.host Sample.world6 (lit "  ") = [].
Proof. apply (@C7_blank_query Sample.host Sample.world6 (lit "  ")). reflexivity. Defined.

(** On the six records and the query a, the sample engine returns the
    first five, and so does [findMatches], without the fallback. *)
Example sample_engine_six :
  map item (@Fuse_search Sample.host Sample.six (lit "a") 5) = firstn 5 Sample.six
  /\ @findMatches Sample.host Sample.world6 (lit "a") = firstn 5 Sample.six.
Proof. split; reflexivity. Qed.



(** ** C2, C8, C10: the gate *)

Section Gate.

Context {host : Host}.
Variable key : list byte.

Lemma has_true (x : jsstring) (set : list jsstring) :
  has x set = true <-> In x set.
Proof.
  unfold has. rewrite existsb_exists. split.
  - intros (y & Hin & E). apply streq_eq in E. now subst.
  - intro Hin. exists x. split; [exact Hin | apply streq_refl].
Qed.

Lemma has_snoc (x : jsstring) (set : list jsstring) : has x (set ++ [x]) = true.
Proof. apply has_true, in_or_app. right. now left. Qed.

Lemma loadClients_keeps (w : world) :
  authorizedUsers (loadClients key w) = authorizedUsers w
  /\ authFile (loadClients key w) = authFile w
  /\ sent (loadClients key w) = sent w.
Proof.
  unfold loadClients. destruct (decryptClientsPayload key (dataFile w)) as [cs pr].
  destruct (Nat.ltb 0 (length cs)); repeat split.
Qed.

(** Authorizing an identity that is in the set changes nothing at all. *)
Lemma addAuthorizedUser_present (w : world) (userId : jsstring) :
  has userId (authorizedUsers w) = true -> addAuthorizedUser w userId = w.
Proof. intro H. unfold addAuthorizedUser. now rewrite H. Qed.

Lemma addAuthorizedUser_absent (w : world) (userId : jsstring) :
  has userId (authorizedUsers w) = false ->
  authorizedUsers (addAuthorizedUser w userId) = authorizedUsers w ++ [userId]
  /\ sent (addAuthorizedUser w userId) = sent w
  /\ (authFile w <> Denied ->
      authFile (addAuthorizedUser w userId)
      = Holds (JSON_stringify (JArr (map JStr (authorizedUsers w ++ [userId]))))).
Proof.
  intro H. unfold addAuthorizedUser. rewrite H.
  destruct (authFile w) eqn:F; simpl; rewrite F; repeat split;
    intros; congruence.
Qed.

Lemma addAuthorizedUser_extends (w : world) (userId : jsstring) :
  exists added,
    authorizedUsers (addAuthorizedUser w userId) = authorizedUsers w ++ added.
Proof.
  destruct (has userId (authorizedUsers w)) eqn:H.
  - exists []. rewrite (addAuthorizedUser_present _ _ H). now rewrite app_nil_r.
  - exists [userId]. now apply addAuthorizedUser_absent.
Qed.

Lemma onMessage_extends (w : world) (msg : message) :
  exists added,
    authorizedUsers (onMessage key w msg) = authorizedUsers w ++ added.
Proof.
  unfold onMessage.
  destruct (negb (JS.truthy (textOf msg))); [exists []; now rewrite app_nil_r|].
  destruct (negb (has _ _)).
  - unfold handleUnauthorizedMessage. destruct (streq _ _).
    + cbn [sendMessage authorizedUsers]. apply addAuthorizedUser_extends.
    + exists []. simpl. now rewrite app_nil_r.
  - exists []. rewrite app_nil_r.
    destruct (startsWith _ _).
    + destruct (streq _ _); [|reflexivity].
      cbn [sendMessage authorizedUsers]. apply loadClients_keeps.
    + unfold handleSearchMessage. destruct (negb _); reflexivity.
Qed.

Lemma step_extends (w : world) (ev : event) :
  exists added, authorizedUsers (step key w ev) = authorizedUsers w ++ added.
Proof.
  destruct ev as [msg|]; simpl.
  - destruct (onMessage_extends w msg) as (added & E). exists added.
    destruct (includes _ _); [|exact E].
    unfold onStart. destruct (has _ _); exact E.
  - exists []. rewrite app_nil_r. apply loadClients_keeps.
Qed.

Lemma run_extends (evs : list event) (w : world) :
  exists added, authorizedUsers (run key w evs) = authorizedUsers w ++ added.
Proof.
  revert w. induction evs as [|ev evs IH]; intro w; simpl.
  - exists []. now rewrite app_nil_r.
  - destruct (step_extends w ev) as (a1 & E1).
    destruct (IH (step key w ev)) as (a2 & E2).
    exists (a1 ++ a2). unfold run in *. simpl. now rewrite E2, E1, app_assoc.
Qed.

(** C8: along every run of the bot the set of authorized identities
    only grows at its end, so an identity in it stays in it; and
    authorizing an identity already in the set returns the world
    unchanged, set and file included. *)
Theorem C8_registry_monotonic (w : world) (userId : jsstring) :
  has userId (authorizedUsers w) = true ->
  (forall evs, exists added,
      authorizedUsers (run key w evs) = authorizedUsers w ++ added)
  /\ (forall evs, has userId (authorizedUsers (run key w evs)) = true)
  /\ addAuthorizedUser w userId = w.
Proof.
  intro H. split; [|split].
  - intro evs. apply run_extends.
  - intro evs. destruct (run_extends evs w) as (added & E).
    rewrite E. apply has_true, in_or_app. left. now apply has_true.
  - now apply addAuthorizedUser_present.
Qed.

(** C2, as amended: for an identity that is not authorized and a message
    with text, the identity is authorized after the message exactly when
    the text, white space at both ends removed, equals the access code;
    then it is appended to the set, the registry file, unless it refuses
    writing, holds the new set, and the confirmation is sent; on every
    other text the set is unchanged and the prompt for the access code
    is sent. *)
Theorem C2_access_code (w : world) (msg : message) :
  has (JS.ofZ (chat_id msg)) (authorizedUsers w) = false ->
  textOf msg <> [] ->
  (has (JS.ofZ (chat_id msg)) (authorizedUsers (onMessage key w msg)) = true
   <-> trim (textOf msg) = ACCESS_CODE)
  /\ (trim (textOf msg) = ACCESS_CODE ->
      authorizedUsers (onMessage key w msg)
      = authorizedUsers w ++ [JS.ofZ (chat_id msg)]
      /\ (authFile w <> Denied ->
          authFile (onMessage key w msg)
          = Holds (JSON_stringify
                     (JArr (map JStr (authorizedUsers w
                                      ++ [JS.ofZ (chat_id msg)])))))
      /\ sent (onMessage key w msg)
         = sent w ++ [(JS.ofZ (chat_id msg), Text.accessGranted)])
  /\ (trim (textOf msg) <> ACCESS_CODE ->
      authorizedUsers (onMessage key w msg) = authorizedUsers w
      /\ authFile (onMessage key w msg) = authFile w
      /\ sent (onMessage key w msg)
         = sent w ++ [(JS.ofZ (chat_id msg), Text.accessPrompt)]).
Proof.
  intros Hun Htext.
  assert (Ht : JS.truthy (textOf msg) = true)
    by (destruct (textOf msg); [contradiction | reflexivity]).
  assert (E : onMessage key w msg
              = handleUnauthorizedMessage w (JS.ofZ (chat_id msg)) (textOf msg)).
  { unfold onMessage. now rewrite Ht, Hun. }
  rewrite E. unfold handleUnauthorizedMessage.
  destruct (addAuthorizedUser_absent w _ Hun) as (Ha & Hs & Hf).
  destruct (streq (trim (textOf msg)) ACCESS_CODE) eqn:C.
  - apply streq_eq in C. cbn [sendMessage authorizedUsers authFile sent].
    split; [|split].
    + rewrite Ha, has_snoc. tauto.
    + intros _. rewrite Ha, Hs. repeat split. exact Hf.
    + intro N. contradiction.
  - apply streq_neq in C. cbn [sendMessage authorizedUsers authFile sent].
    split; [|split].
    + rewrite Hun. split; [discriminate | contradiction].
    + intro N. contradiction.
    + intros _. repeat split.
Qed.

End Gate.

Lemma C8_registry_monotonic_witness :
  has (lit "42")
      (authorizedUsers
         (@run Sample.host Sample.key Sample.member
            [Incoming (Message 7 (Some (lit "22170313")));
             ReloadTimer;
             Incoming (Message 42 (Some (lit "/reload")))])) = true.
Proof.
  apply (@C8_registry_monotonic Sample.host Sample.key Sample.member (lit "42")).
  reflexivity.
Defined.

Lemma C2_access_code_witness :
  authorizedUsers
    (@onMessage Sample.host Sample.key Sample.world6
       (Message 42 (Some (lit "22170313"))))
  = [lit "42"].
Proof.
  apply (@C2_access_code Sample.host Sample.key Sample.world6
           (Message 42 (Some (lit "22170313"))));
    [reflexivity | discriminate | reflexivity].
Defined.

(** C2 as stated fails on a text that is the access code followed by a
    space: it is not equal to the code, and the identity is authorized. *)
Lemma C2_padded_code_accepted :
  textOf (Message 42 (Some (lit "22170313 "))) <> ACCESS_CODE
  /\ has (JS.ofZ 42) (authorizedUsers Sample.world6) = false
  /\ has (JS.ofZ 42)
         (authorizedUsers
            (@onMessage Sample.host Sample.key Sample.world6
               (Message 42 (Some (lit "22170313 "))))) = true.
Proof.
  split; [|split].
  - vm_compute. discriminate.
  - reflexivity.
  - vm_compute. reflexivity.
Qed.

(** ** C10: blank text from an authorized identity *)

Section Blank.

Context {host : Host}.
Variable key : list byte.

Lemma blank_startsWith (x : N) (q s : jsstring) :
  isWhiteSpace x = false -> forallb isWhiteSpace s = true ->
  startsWith (x :: q) s = false.
Proof.
  intros Hx Hs. destruct s as [|c s]; [reflexivity|].
  simpl in *. apply andb_true_iff in Hs as [Hc _].
  destruct (N.eqb_spec x c) as [->|]; [congruence | reflexivity].
Qed.

Lemma blank_includes (x : N) (q s : jsstring) :
  isWhiteSpace x = false -> forallb isWhiteSpace s = true ->
  includes (x :: q) s = false.
Proof.
  intros Hx. induction s as [|c s IH]; intro Hs; [reflexivity|].
  cbn [includes]. rewrite (@blank_startsWith x q (c :: s) Hx Hs).
  simpl in Hs. apply andb_true_iff in Hs as [_ Hs]. now apply IH.
Qed.

(** C10: from an authorized identity, a message without text or with
    the empty text changes nothing and gets no answer; a text that is
    not empty but all white space gets the request for a query, the
    world being otherwise untouched, whatever the directory and the
    engine; a text that is not blank, is no command and has no match
    gets the message that nothing was found, which is another text. *)
Theorem C10_blank_text (w : world) (msg : message) :
  has (JS.ofZ (chat_id msg)) (authorizedUsers w) = true ->
  (textOf msg = [] -> step key w (Incoming msg) = w)
  /\ (textOf msg <> [] -> forallb isWhiteSpace (textOf msg) = true ->
      step key w (Incoming msg)
      = sendMessage w (JS.ofZ (chat_id msg)) Text.sendQuery)
  /\ (forallb isWhiteSpace (textOf msg) = false ->
      startsWith (lit "/") (textOf msg) = false ->
      includes (lit "/start") (textOf msg) = false ->
      findMatches w (textOf msg) = [] ->
      step key w (Incoming msg)
      = sendMessage w (JS.ofZ (chat_id msg)) Text.noMatches)
  /\ Text.sendQuery <> Text.noMatches.
Proof.
  intro Hauth. split; [|split; [|split]].
  - intro E. unfold step, onMessage. now rewrite E.
  - intros Hne Hws.
    assert (Ht : JS.truthy (textOf msg) = true)
      by (destruct (textOf msg); [contradiction | reflexivity]).
    unfold step.
    change (lit "/start") with (47 :: lit "start").
    rewrite (@blank_includes 47 (lit "start") _ eq_refl Hws).
    unfold onMessage. rewrite Ht, Hauth. cbn [negb].
    change (lit "/") with [47].
    rewrite (@blank_startsWith 47 [] _ eq_refl Hws).
    unfold handleSearchMessage. now rewrite (trim_blank _ Hws).
  - intros Hq Hcmd Hstart Hnone.
    assert (Ht : JS.truthy (textOf msg) = true).
    { destruct (textOf msg); [discriminate Hq | reflexivity]. }
    apply not_blank_truthy in Hq.
    unfold step. rewrite Hstart.
    unfold onMessage. rewrite Ht, Hauth, Hcmd. cbn [negb].
    unfold handleSearchMessage. rewrite Hq, Hnone. reflexivity.
  - vm_compute. discriminate.
Qed.

End Blank.

Lemma C10_blank_text_witness :
  @step Sample.host Sample.key Sample.member
    (Incoming (Message 42 (Some (lit "   "))))
  = sendMessage Sample.member (lit "42") Text.sendQuery.
Proof.
  destruct (@C10_blank_text Sample.host Sample.key Sample.member
              (Message 42 (Some (lit "   ")))) as (_ & H & _).
  - reflexivity.
  - apply H; [discriminate | reflexivity].
Defined.

(** ** C9: configuration *)




(** ** A session on the sample directory

    The bot starts on the sample file; chat 42 searches before and after
    sending the access code. *)
Example sample_session :
  match @bootstrap Sample.host Sample.key Open
          (initial (Holds (Sample.print [] Sample.payload)) Missing) with
  | inl _ => False
  | inr w =>
  clients w = [ Client (lit "Acme Corp") (lit "Ivan") (lit "A1");
                Client (lit "Beta") [] [] ]
  /\ sent (@run Sample.host Sample.key w
             [ Incoming (Message 42 (Some (lit "acme")));
               Incoming (Message 42 (Some (lit "22170313")));
               Incoming (Message 42 (Some (lit "acme")));
               Incoming (Message 42 (Some (lit "beta")));
               Incoming (Message 42 (Some (lit "zzzzz"))) ])
     = [ (lit "42", Text.accessPrompt);
         (lit "42", Text.accessGranted);
         (lit "42",
          Text.header ++ [10; 10]
          ++ lit "1. Клиент: Acme Corp" ++ [10]
          ++ lit "   Менеджер: Ivan" ++ [10]
          ++ lit "   Код: A1");
         (lit "42",
          Text.header ++ [10; 10]
          ++ lit "1. Клиент: Beta" ++ [10]
          ++ lit "   Менеджер: —" ++ [10]
          ++ lit "   Код: —");
         (lit "42", Text.noMatches) ]
  end.
Proof. vm_compute. split; reflexivity. Qed.

(* ================================================================== *)
(** * Further properties of the code *)

(** ** Identities are decimal numerals *)

Lemma decimalValue_snoc (s : jsstring) (c : N) :
  decimalValue (s ++ [c]) = decimalValue s * 10 + (c - 48).
Proof. unfold decimalValue. now rewrite fold_left_app. Qed.

Lemma digits_spec (f : nat) :
  forall n acc, n < 10 ^ N.of_nat (S f) ->
    exists pre, digits (S f) n acc = pre ++ acc
                /\ decimalValue pre = n
                /\ pre <> []
                /\ Forall (fun c => 48 <= c < 58) pre.
Proof.
  assert (last : forall n acc, n / 10 = 0 ->
            exists pre, (48 + n mod 10) :: acc = pre ++ acc
                        /\ decimalValue pre = n /\ pre <> []
                        /\ Forall (fun c => 48 <= c < 58) pre).
  { intros n acc Z. exists [48 + n mod 10]. repeat split.
    - unfold decimalValue. cbn [fold_left]. lia.
    - discriminate.
    - constructor; [lia | constructor]. }
  induction f as [|f IH]; intros n acc Hn.
  - cbn [digits]. destruct (N.eqb_spec (n / 10) 0) as [Z|NZ]; [now apply last|].
    change (10 ^ N.of_nat 1) with 10 in Hn. lia.
  - change (digits (S (S f)) n acc)
      with (if n / 10 =? 0 then (48 + n mod 10) :: acc
            else digits (S f) (n / 10) ((48 + n mod 10) :: acc)).
    destruct (N.eqb_spec (n / 10) 0) as [Z|NZ]; [now apply last|].
    assert (Hq : n / 10 < 10 ^ N.of_nat (S f)).
    { replace (N.of_nat (S (S f))) with (N.succ (N.of_nat (S f))) in Hn by lia.
      rewrite N.pow_succ_r' in Hn.
      apply N.Div0.div_lt_upper_bound. lia. }
    destruct (IH (n / 10) ((48 + n mod 10) :: acc) Hq) as (pre & E & V & _ & D).
    exists (pre ++ [48 + n mod 10]). repeat split.
    + rewrite E, <- app_assoc. reflexivity.
    + rewrite decimalValue_snoc, V. lia.
    + destruct pre; discriminate.
    + apply Forall_app. split; [exact D|]. constructor; [lia | constructor].
Qed.

Lemma ofN_spec (n : N) :
  decimalValue (JS.ofN n) = n
  /\ JS.ofN n <> []
  /\ Forall (fun c => 48 <= c < 58) (JS.ofN n).
Proof.
  unfold JS.ofN.
  assert (Hn : n < 10 ^ N.of_nat (S (N.to_nat (N.log2 n)))).
  { destruct (N.eq_dec n 0) as [->|NZ]; [reflexivity|].
    apply N.lt_le_trans with (2 ^ N.succ (N.log2 n)).
    - apply N.log2_spec. lia.
    - replace (N.of_nat (S (N.to_nat (N.log2 n)))) with (N.succ (N.log2 n)) by lia.
      apply N.pow_le_mono_l. lia. }
  destruct (@digits_spec _ n [] Hn) as (pre & E & V & NE & D).
  rewrite app_nil_r in E. now rewrite E.
Qed.

Lemma ofN_inj (m n : N) : JS.ofN m = JS.ofN n -> m = n.
Proof.
  intro E. rewrite <- (proj1 (ofN_spec m)), <- (proj1 (ofN_spec n)). now rewrite E.
Qed.

(** Two chat identifiers have the same string only when they are equal. *)
Lemma ofZ_inj (a b : Z) : JS.ofZ a = JS.ofZ b -> a = b.
Proof.
  assert (first : forall n, exists c r, JS.ofN n = c :: r /\ c <> 45).
  { intro n. destruct (ofN_spec n) as (_ & NE & D).
    destruct (JS.ofN n) as [|c r]; [contradiction|].
    exists c, r. split; [reflexivity|]. inversion D; subst. lia. }
  destruct a as [|p|p], b as [|q|q]; cbn [JS.ofZ]; intro E;
    try reflexivity.
  all: try (apply ofN_inj in E; simpl in E; lia).
  all: try (destruct (first (Z.to_N 0)) as (c & r & F & N);
            rewrite F in E; injection E as E _; congruence).
  all: try (destruct (first (Z.to_N (Z.pos p))) as (c & r & F & N);
            rewrite F in E; injection E as E _; congruence).
  all: try (destruct (first (Z.to_N (Z.pos q))) as (c & r & F & N);
            rewrite F in E; injection E as E _; congruence).
  injection E as E. apply ofN_inj in E. congruence.
Qed.

(** ** The gate, message by message *)

Section Replies.

Context {host : Host}.
Variable key : list byte.

Lemma has_app (x : jsstring) (l : list jsstring) (y : jsstring) :
  has x (l ++ [y]) = has x l || streq x y.
Proof. unfold has. rewrite existsb_app. simpl. now rewrite orb_false_r. Qed.

Lemma truthy_cons (s : jsstring) : s <> [] -> JS.truthy s = true.
Proof. destruct s; [contradiction | reflexivity]. Qed.

Lemma no_slash_startsWith (q s : jsstring) :
  Forall (fun c => c <> 47) s -> startsWith (47 :: q) s = false.
Proof.
  intros H. destruct s as [|c s]; [reflexivity|].
  inversion H; subst. cbn [startsWith].
  destruct (N.eqb_spec 47 c); [congruence | reflexivity].
Qed.

Lemma no_slash_includes (q s : jsstring) :
  Forall (fun c => c <> 47) s -> includes (47 :: q) s = false.
Proof.
  induction s as [|c s IH]; intro H; [reflexivity|].
  cbn [includes]. rewrite (@no_slash_startsWith q (c :: s) H).
  inversion H; subst. now apply IH.
Qed.

Lemma blank_no_slash (s : jsstring) :
  forallb isWhiteSpace s = true -> Forall (fun c => c <> 47) s.
Proof.
  induction s as [|c s IH]; simpl; intro H; constructor.
  - apply andb_true_iff in H as [H _]. intros ->. discriminate.
  - apply andb_true_iff in H as [_ H]. now apply IH.
Qed.

(** A text that trims to the access code holds no slash, so no pattern of
    a command is found in it. *)
Lemma code_no_slash (body : jsstring) :
  trim body = ACCESS_CODE -> Forall (fun c => c <> 47) body.
Proof.
  intro E. destruct (trim_spec body) as (l & r & S & Hl & Hr & _).
  rewrite E in S. rewrite S. repeat rewrite Forall_app.
  split; [now apply blank_no_slash | split; [|now apply blank_no_slash]].
  unfold ACCESS_CODE. vm_compute.
  repeat (constructor; [discriminate|]). constructor.
Qed.

(** The access code from a chat that is not authorized: the sender is
    added and gets the confirmation, and nothing else happens. *)
Lemma code_step (w : world) (msg : message) :
  has (JS.ofZ (chat_id msg)) (authorizedUsers w) = false ->
  trim (textOf msg) = ACCESS_CODE ->
  step key w (Incoming msg)
  = sendMessage (addAuthorizedUser w (JS.ofZ (chat_id msg)))
                (JS.ofZ (chat_id msg)) Text.accessGranted.
Proof.
  intros Hun C.
  assert (Hne : textOf msg <> []).
  { intro E. rewrite E in C. discriminate C. }
  unfold step, onMessage.
  rewrite (truthy_cons Hne), Hun. cbn [negb].
  unfold handleUnauthorizedMessage. rewrite C, streq_refl.
  change (lit "/start") with (47 :: lit "start").
  now rewrite (@no_slash_includes (lit "start") _ (code_no_slash _ C)).
Qed.

(** What a chat that is not authorized gets for a message with text: the
    confirmation alone when the text trims to the access code; otherwise
    the prompt for the code, followed by the greeting when the text holds
    [/start]. The directory is neither searched nor reloaded. *)
Theorem unauthorized_chat_outcome (w : world) (msg : message) :
  has (JS.ofZ (chat_id msg)) (authorizedUsers w) = false ->
  textOf msg <> [] ->
  step key w (Incoming msg)
  = if streq (trim (textOf msg)) ACCESS_CODE
    then sendMessage (addAuthorizedUser w (JS.ofZ (chat_id msg)))
                     (JS.ofZ (chat_id msg)) Text.accessGranted
    else if includes (lit "/start") (textOf msg)
    then sendMessage
           (sendMessage w (JS.ofZ (chat_id msg)) Text.accessPrompt)
           (JS.ofZ (chat_id msg)) Text.hello
    else sendMessage w (JS.ofZ (chat_id msg)) Text.accessPrompt.
Proof.
  intros Hun Hne.
  destruct (streq (trim (textOf msg)) ACCESS_CODE) eqn:C.
  - apply streq_eq in C. now apply code_step.
  - unfold step, onMessage.
    rewrite (truthy_cons Hne), Hun. cbn [negb].
    unfold handleUnauthorizedMessage. rewrite C.
    destruct (includes (lit "/start") (textOf msg)); [|reflexivity].
    unfold onStart. cbn [sendMessage authorizedUsers]. now rewrite Hun.
Qed.

(** What an authorized chat gets for a text that begins with a slash:
    [/reload], and that text only, reloads the directory and is
    acknowledged; every other such text is an unknown command, followed by
    the words of welcome when it holds [/start], and changes nothing
    else. *)
Theorem authorized_command_outcome (w : world) (msg : message) :
  has (JS.ofZ (chat_id msg)) (authorizedUsers w) = true ->
  startsWith (lit "/") (textOf msg) = true ->
  step key w (Incoming msg)
  = if streq (textOf msg) (lit "/reload")
    then sendMessage (loadClients key w) (JS.ofZ (chat_id msg)) Text.reloaded
    else if includes (lit "/start") (textOf msg)
    then sendMessage
           (sendMessage w (JS.ofZ (chat_id msg)) Text.unknownCommand)
           (JS.ofZ (chat_id msg)) Text.welcomeBack
    else sendMessage w (JS.ofZ (chat_id msg)) Text.unknownCommand.
Proof.
  intros Hauth Hcmd.
  assert (Hne : JS.truthy (textOf msg) = true).
  { destruct (textOf msg); [discriminate Hcmd | reflexivity]. }
  unfold step, onMessage. rewrite Hne, Hauth, Hcmd. cbn [negb].
  destruct (streq (textOf msg) (lit "/reload")) eqn:R.
  - apply streq_eq in R. rewrite R. reflexivity.
  - destruct (includes (lit "/start") (textOf msg)); [|reflexivity].
    unfold onStart. cbn [sendMessage authorizedUsers]. now rewrite Hauth.
Qed.

(** [/reload] from an authorized chat reloads and is acknowledged. *)
Lemma reload_step (w : world) (msg : message) :
  has (JS.ofZ (chat_id msg)) (authorizedUsers w) = true ->
  textOf msg = lit "/reload" ->
  step key w (Incoming msg)
  = sendMessage (loadClients key w) (JS.ofZ (chat_id msg)) Text.reloaded.
Proof.
  intros Hauth Htext. unfold step, onMessage. rewrite Htext, Hauth.
  change (includes (lit "/start") (lit "/reload")) with false.
  change (JS.truthy (lit "/reload")) with true.
  change (startsWith (lit "/") (lit "/reload")) with true.
  change (streq (lit "/reload") (lit "/reload")) with true.
  reflexivity.
Qed.

(** The set after a message is the set before, or the set before with
    the sender at its end. *)
Lemma step_users (w : world) (msg : message) :
  authorizedUsers (step key w (Incoming msg)) = authorizedUsers w
  \/ authorizedUsers (step key w (Incoming msg))
     = authorizedUsers w ++ [JS.ofZ (chat_id msg)].
Proof.
  assert (S : forall w', authorizedUsers
                           (if includes (lit "/start") (textOf msg)
                            then onStart w' msg else w')
                         = authorizedUsers w').
  { intro w'. destruct (includes _ _); [|reflexivity].
    unfold onStart. destruct (has _ _); reflexivity. }
  unfold step. rewrite S. unfold onMessage.
  destruct (negb (JS.truthy (textOf msg))); [now left|].
  destruct (has (JS.ofZ (chat_id msg)) (authorizedUsers w)) eqn:H; cbn [negb].
  - left. destruct (startsWith _ _).
    + destruct (streq _ _); [|reflexivity].
      cbn [sendMessage authorizedUsers]. apply loadClients_keeps.
    + unfold handleSearchMessage. destruct (negb _); reflexivity.
  - unfold handleUnauthorizedMessage. destruct (streq _ _); [|now left].
    right. cbn [sendMessage authorizedUsers].
    now apply addAuthorizedUser_absent.
Qed.

(** A message authorizes nobody but its sender. *)
Theorem other_chats_untouched (w : world) (msg : message) (other : Z) :
  chat_id msg <> other ->
  has (JS.ofZ other) (authorizedUsers (step key w (Incoming msg)))
  = has (JS.ofZ other) (authorizedUsers w).
Proof.
  intro Hne. destruct (step_users w msg) as [-> | ->]; [reflexivity|].
  rewrite has_app.
  assert (F : streq (JS.ofZ other) (JS.ofZ (chat_id msg)) = false).
  { apply streq_neq. intro E. apply ofZ_inj in E. congruence. }
  rewrite F. apply orb_false_r.
Qed.

(** The bot answers the chat that wrote, with two messages at most, and a
    reload by the watcher sends nothing. *)
Theorem replies_to_sender (w : world) (ev : event) :
  exists new,
    sent (step key w ev) = sent w ++ new
    /\ (length new <= 2)%nat
    /\ match ev with
       | Incoming msg =>
           Forall (fun m => fst m = JS.ofZ (chat_id msg)) new
           /\ (textOf msg = [] -> new = [])
       | ReloadTimer => new = []
       end.
Proof.
  destruct ev as [msg|].
  - assert (M : exists new,
               sent (onMessage key w msg) = sent w ++ new
               /\ (length new <= 1)%nat
               /\ Forall (fun m => fst m = JS.ofZ (chat_id msg)) new
               /\ (textOf msg = [] -> new = [])).
    { unfold onMessage. destruct (textOf msg) as [|c body] eqn:T.
      - exists []. rewrite app_nil_r. repeat split; auto.
      - cbn [JS.truthy negb].
        assert (one : forall w' x,
                  sent w' = sent w ->
                  exists new,
                    sent (sendMessage w' (JS.ofZ (chat_id msg)) x) = sent w ++ new
                    /\ (length new <= 1)%nat
                    /\ Forall (fun m => fst m = JS.ofZ (chat_id msg)) new
                    /\ (c :: body = [] -> new = [])).
        { intros w' x E. exists [(JS.ofZ (chat_id msg), x)].
          cbn [sendMessage sent]. rewrite E.
          repeat split; auto. discriminate. }
        destruct (negb (has _ _)).
        + unfold handleUnauthorizedMessage. destruct (streq _ _).
          * apply one. destruct (has (JS.ofZ (chat_id msg)) (authorizedUsers w)) eqn:H.
            -- now rewrite (addAuthorizedUser_present _ _ H).
            -- now apply addAuthorizedUser_absent.
          * now apply one.
        + destruct (startsWith _ _).
          * destruct (streq _ _); apply one; [apply loadClients_keeps | reflexivity].
          * unfold handleSearchMessage. destruct (negb _); now apply one. }
    destruct M as (new & E & L & F & Z).
    unfold step. destruct (includes (lit "/start") (textOf msg)) eqn:I.
    + exists (new ++ [(JS.ofZ (chat_id msg),
                       if has (JS.ofZ (chat_id msg))
                              (authorizedUsers (onMessage key w msg))
                       then Text.welcomeBack else Text.hello)]).
      unfold onStart. destruct (has _ _); cbn [sendMessage sent];
        rewrite E, <- app_assoc; repeat split;
        try (rewrite length_app; simpl; lia);
        try (apply Forall_app; split; [exact F | now constructor]);
        try (intro T; rewrite T in I; discriminate I).
    + exists new. repeat split; try assumption. lia.
  - exists []. rewrite app_nil_r. simpl. repeat split; [|lia].
    apply loadClients_keeps.
Qed.

(** When the registry file refuses the write, the sender is authorized
    all the same and gets the confirmation; the file is as it was and the
    failure is printed. *)
Theorem write_failure_keeps_session (w : world) (msg : message) :
  has (JS.ofZ (chat_id msg)) (authorizedUsers w) = false ->
  trim (textOf msg) = ACCESS_CODE ->
  authFile w = Denied ->
  step key w (Incoming msg)
  = World (clients w) (fuse w) (authorizedUsers w ++ [JS.ofZ (chat_id msg)])
          (dataFile w) Denied
          (sent w ++ [(JS.ofZ (chat_id msg), Text.accessGranted)])
          (console w ++ [ErrorAuthWrite]).
Proof.
  intros Hun Hcode Hfile.
  rewrite (code_step w msg Hun Hcode).
  unfold addAuthorizedUser. rewrite Hun.
  unfold sendMessage, log, setAuthorized.
  cbn [clients fuse authorizedUsers dataFile authFile sent console].
  now rewrite Hfile.
Qed.

End Replies.

(** ** The access registry *)

Section Registry.

Context {host : Host}.
Variable key : list byte.

Lemma has_false (x : jsstring) (set : list jsstring) :
  has x set = false <-> ~ In x set.
Proof.
  rewrite <- has_true. destruct (has x set); split; congruence.
Qed.

Lemma NoDup_snoc (x : jsstring) (set : list jsstring) :
  NoDup set -> has x set = false -> NoDup (set ++ [x]).
Proof.
  intros N H. apply has_false in H.
  apply NoDup_app; [exact N | repeat constructor; intros [] | ].
  intros y Hy [<- | []]. contradiction.
Qed.

Lemma newSet_from (l acc : list jsstring) :
  NoDup acc ->
  let set := fold_left (fun set x => if has x set then set else set ++ [x]) l acc in
  NoDup set /\ forall x, In x set <-> In x acc \/ In x l.
Proof.
  revert acc. induction l as [|y l IH]; intros acc N; simpl.
  - split; [exact N | intro x; tauto].
  - destruct (has y acc) eqn:H.
    + destruct (IH acc N) as [N' M]. split; [exact N'|].
      intro x. rewrite M. apply has_true in H.
      split; [tauto | intros [I | [<- | I]]; tauto].
    + destruct (IH (acc ++ [y]) (@NoDup_snoc y acc N H)) as [N' M]. split; [exact N'|].
      intro x. rewrite M, in_app_iff. simpl. tauto.
Qed.

Lemma newSet_NoDup (l : list jsstring) :
  NoDup l -> newSet l = l.
Proof.
  unfold newSet.
  assert (G : forall l acc, NoDup (acc ++ l) ->
            fold_left (fun set x => if has x set then set else set ++ [x]) l acc
            = acc ++ l).
  { clear l. induction l as [|y l IH]; intros acc N; simpl.
    - now rewrite app_nil_r.
    - assert (H : has y acc = false).
      { apply has_false. intro I. apply NoDup_remove_2 in N.
        apply N, in_or_app. now left. }
      rewrite H, IH; rewrite <- app_assoc; [reflexivity | exact N]. }
  intro N. now rewrite (G l []).
Qed.

Lemma mapM_toString_strings (l : list jsstring) :
  mapM Json.toString (map JStr l) = ok l.
Proof. induction l as [|x l IH]; simpl; [reflexivity | now rewrite IH]. Qed.

(** [ensureAuthFile], case by case. *)
Lemma ensureAuthFile_outcome (dir : folder) (w : world) :
  ensureAuthFile dir w
  = match dir, authFile w with
    | Closed, _ => throw IOError
    | Sealed, Missing => throw IOError
    | Open, Missing => ok (setAuthFile w (Holds (JSON_stringify (JArr []))))
    | _, _ => ok w
    end.
Proof.
  unfold ensureAuthFile, access.
  destruct dir, (authFile w); reflexivity.
Qed.

(** The world in which [loadAuthorizedUsers] ends when [ensureAuthFile]
    has left [w]. *)
Lemma loadAuthorizedUsers_ok (dir : folder) (w w' : world) :
  loadAuthorizedUsers dir w = ok w' ->
  exists w1,
    ensureAuthFile dir w = ok w1
    /\ w' = match readAuthorizedUsers (authFile w1) with
            | inr set => setAuthorized w1 set
            | inl e => setAuthorized (log w1 [ErrorAuthRead e]) []
            end.
Proof.
  unfold loadAuthorizedUsers, bind.
  destruct (ensureAuthFile dir w) as [e|w1]; [discriminate|].
  intro H. exists w1. split; [reflexivity|].
  destruct (readAuthorizedUsers (authFile w1)); injection H as <-; reflexivity.
Qed.

Lemma loadAuthorizedUsers_NoDup (dir : folder) (w w' : world) :
  loadAuthorizedUsers dir w = ok w' -> NoDup (authorizedUsers w').
Proof.
  intro H. destruct (@loadAuthorizedUsers_ok dir w w' H) as (w1 & _ & ->).
  destruct (readAuthorizedUsers (authFile w1)) as [e|set] eqn:R; simpl; [constructor|].
  unfold readAuthorizedUsers in R.
  destruct (authFile w1) as [| |data]; try discriminate.
  destruct (JSON_parse data) as [[| | | |ids|]|]; try discriminate;
    try (injection R as <-; constructor).
  destruct (mapM Json.toString ids) as [|strs]; [discriminate|].
  injection R as <-. apply (@newSet_from strs []). constructor.
Qed.

(** What start-up makes of the registry file. When the directory cannot
    be looked into, or the file is missing and cannot be created, the
    error leaves [loadAuthorizedUsers] and start-up ends there. In every
    other case the bot goes on: a missing file is created with the empty
    array and a file that exists is left as it is; the set read has no
    duplicates; a file that cannot be read, is not JSON, or holds an
    array with an element that has no [toString] gives the empty set and
    a line on the console; JSON that is no array gives the empty set and
    no line; an array of values with a [toString] gives the set of their
    strings. *)
Theorem loadAuthorizedUsers_outcome (dir : folder) (w : world) :
  (dir = Closed \/ (dir = Sealed /\ authFile w = Missing) ->
   loadAuthorizedUsers dir w = throw IOError)
  /\ (dir = Open \/ (dir = Sealed /\ authFile w <> Missing) ->
      exists w',
        loadAuthorizedUsers dir w = ok w'
        /\ NoDup (authorizedUsers w')
        /\ authFile w'
           = match authFile w with
             | Missing => Holds (JSON_stringify (JArr []))
             | f => f
             end
        /\ (forall e, readAuthorizedUsers (authFile w') = throw e ->
              authorizedUsers w' = []
              /\ console w' = console w ++ [ErrorAuthRead e])
        /\ (forall data v,
              authFile w' = Holds data ->
              JSON_parse data = Some v ->
              (forall ids, v <> JArr ids) ->
              authorizedUsers w' = [] /\ console w' = console w)
        /\ (forall data ids strs,
              authFile w' = Holds data ->
              JSON_parse data = Some (JArr ids) ->
              mapM Json.toString ids = ok strs ->
              (forall x, In x (authorizedUsers w') <-> In x strs)
              /\ console w' = console w)).
Proof.
  split.
  - intros [-> | [-> E]]; unfold loadAuthorizedUsers;
      rewrite ensureAuthFile_outcome; [reflexivity | now rewrite E].
  - intro Hd.
    assert (E1 : exists w1,
               ensureAuthFile dir w = ok w1
               /\ console w1 = console w
               /\ authFile w1
                  = match authFile w with
                    | Missing => Holds (JSON_stringify (JArr []))
                    | f => f
                    end).
    { rewrite ensureAuthFile_outcome.
      destruct Hd as [-> | [-> N]]; destruct (authFile w) eqn:F;
        try contradiction; eexists; (split; [reflexivity|]);
        split; try reflexivity; exact F. }
    destruct E1 as (w1 & E1 & C & F).
    set (w' := match readAuthorizedUsers (authFile w1) with
               | inr set => setAuthorized w1 set
               | inl e => setAuthorized (log w1 [ErrorAuthRead e]) []
               end).
    assert (L : loadAuthorizedUsers dir w = ok w').
    { unfold loadAuthorizedUsers, w'. rewrite E1. unfold bind, ok.
      destruct (readAuthorizedUsers (authFile w1)); reflexivity. }
    assert (A : authFile w' = authFile w1)
      by (unfold w'; destruct (readAuthorizedUsers (authFile w1)); reflexivity).
    exists w'. split; [exact L|].
    split; [exact (@loadAuthorizedUsers_NoDup dir w w' L)|].
    split; [now rewrite A|].
    rewrite A. unfold w'. split; [|split].
    + intros e R. rewrite R. simpl. now rewrite C.
    + intros data v Hf Hp Hv. unfold readAuthorizedUsers. rewrite Hf, Hp.
      destruct v; simpl; try (now rewrite C).
      exfalso. now apply (Hv items).
    + intros data ids strs Hf Hp Hs. unfold readAuthorizedUsers.
      rewrite Hf, Hp, Hs. simpl. split; [|exact C].
      intro x. destruct (@newSet_from strs [] (NoDup_nil _)) as [_ M].
      unfold newSet. rewrite M. simpl. tauto.
Qed.

Lemma addAuthorizedUser_NoDup (w : world) (userId : jsstring) :
  NoDup (authorizedUsers w) -> NoDup (authorizedUsers (addAuthorizedUser w userId)).
Proof.
  intro N. destruct (has userId (authorizedUsers w)) eqn:H.
  - now rewrite (addAuthorizedUser_present _ _ H).
  - destruct (@addAuthorizedUser_absent host w userId H) as (-> & _). now apply NoDup_snoc.
Qed.

Lemma step_users_add (w : world) (msg : message) :
  authorizedUsers (step key w (Incoming msg)) = authorizedUsers w
  \/ authorizedUsers (step key w (Incoming msg))
     = authorizedUsers (addAuthorizedUser w (JS.ofZ (chat_id msg))).
Proof.
  assert (S : forall w', authorizedUsers
                           (if includes (lit "/start") (textOf msg)
                            then onStart w' msg else w')
                         = authorizedUsers w').
  { intro w'. destruct (includes _ _); [|reflexivity].
    unfold onStart. destruct (has _ _); reflexivity. }
  unfold step. rewrite S. unfold onMessage.
  destruct (negb (JS.truthy (textOf msg))); [now left|].
  destruct (negb (has _ _)).
  - unfold handleUnauthorizedMessage. destruct (streq _ _); [now right | now left].
  - left. destruct (startsWith _ _).
    + destruct (streq _ _); [|reflexivity].
      cbn [sendMessage authorizedUsers]. apply loadClients_keeps.
    + unfold handleSearchMessage. destruct (negb _); reflexivity.
Qed.

(** No identity is ever twice in the set: not after a start-up that the
    bot survives, whatever the two files hold, and not after any sequence
    of messages and reloads. *)
Theorem registry_never_duplicates (dir : folder) (data auth : file)
    (w0 : world) (evs : list event) :
  bootstrap key dir (initial data auth) = ok w0 ->
  NoDup (authorizedUsers (run key w0 evs)).
Proof.
  intro H. unfold bootstrap, bind in H.
  destruct (loadAuthorizedUsers dir (initial data auth)) as [e|w1] eqn:L;
    [discriminate|].
  injection H as <-.
  assert (B : NoDup (authorizedUsers (loadClients key w1))).
  { rewrite (proj1 (loadClients_keeps key _)).
    exact (@loadAuthorizedUsers_NoDup dir (initial data auth) w1 L). }
  revert B. generalize (loadClients key w1).
  induction evs as [|ev evs IH]; intros w N; [exact N|].
  apply IH. destruct ev as [msg|].
  - destruct (step_users_add w msg) as [-> | ->];
      [exact N | now apply addAuthorizedUser_NoDup].
  - simpl. now rewrite (proj1 (loadClients_keeps key w)).
Qed.

(** An authorization survives a restart: when [JSON.parse] reads back the
    array of strings that [JSON.stringify] wrote for the set, start-up on
    the file left by [addAuthorizedUser], in a directory that can be
    looked into, goes through and gives the same set in the same order. *)
Theorem authorization_survives_restart (dir : folder) (w : world)
    (userId : jsstring) (data : file) :
  dir <> Closed ->
  NoDup (authorizedUsers w) ->
  has userId (authorizedUsers w) = false ->
  authFile w <> Denied ->
  JSON_parse (JSON_stringify (JArr (map JStr (authorizedUsers w ++ [userId]))))
  = Some (JArr (map JStr (authorizedUsers w ++ [userId]))) ->
  exists w',
    loadAuthorizedUsers dir
      (initial data (authFile (addAuthorizedUser w userId))) = ok w'
    /\ authorizedUsers w' = authorizedUsers (addAuthorizedUser w userId).
Proof.
  intros Hd N H Hf Hp.
  destruct (addAuthorizedUser_absent w _ H) as (Eu & _ & Ef).
  rewrite Eu, (Ef Hf).
  unfold loadAuthorizedUsers. rewrite ensureAuthFile_outcome.
  unfold initial. cbn [authFile].
  assert (R : readAuthorizedUsers
                (Holds (JSON_stringify
                          (JArr (map JStr (authorizedUsers w ++ [userId])))))
              = ok (authorizedUsers w ++ [userId])).
  { unfold readAuthorizedUsers. rewrite Hp, mapM_toString_strings.
    cbn [bind ok]. f_equal. apply newSet_NoDup. now apply NoDup_snoc. }
  destruct dir; [| |contradiction]; cbn [bind ok authFile]; rewrite R;
    eexists; split; reflexivity.
Qed.

End Registry.

(** ** What a loaded directory looks like *)

Lemma trimStart_fixed (s : jsstring) :
  match s with [] => True | c :: _ => isWhiteSpace c = false end ->
  trimStart s = s.
Proof. destruct s as [|c s]; simpl; [reflexivity | now intros ->]. Qed.

(** Trimming a trimmed string changes nothing. *)
Lemma trim_idempotent (s : jsstring) : trim (trim s) = trim s.
Proof.
  destruct (trim_spec s) as (_ & _ & _ & _ & _ & Hh & Ht).
  unfold trim at 1. rewrite (trimStart_fixed _ Hh).
  unfold trimEnd. rewrite (trimStart_fixed _ Ht). apply rev_involutive.
Qed.

Lemma normalizeCell_trimmed (v : option json) (s : jsstring) :
  normalizeCell v = ok s -> trim s = s.
Proof.
  destruct v as [v|]; [|intro H; injection H as <-; reflexivity].
  destruct v; unfold normalizeCell, bind; intro H;
    try (injection H as <-; reflexivity).
  all: destruct (toStr _) as [|x]; [discriminate|];
       injection H as <-; apply trim_idempotent.
Qed.

Lemma mapM_Forall {A B : Type} (f : A -> result B) (P : B -> Prop) :
  (forall a b, f a = ok b -> P b) ->
  forall l l', mapM f l = ok l' -> Forall P l'.
Proof.
  intros Hf. induction l as [|a l IH]; intros l' H; simpl in H.
  - injection H as <-. constructor.
  - destruct (f a) as [|b] eqn:Fa; [discriminate|]. simpl in H.
    destruct (mapM f l) as [|bs]; [discriminate|]. simpl in H.
    injection H as <-. constructor; [now apply (Hf a) | now apply IH].
Qed.

Lemma entry_trimmed (keys : jsstring * jsstring * jsstring) (entry : json) (c : client) :
  (n <- (v <- get entry (fst (fst keys)) ;; normalizeCell v) ;;
   m <- (v <- get entry (snd (fst keys)) ;; normalizeCell v) ;;
   k <- (v <- get entry (snd keys) ;; normalizeCell v) ;;
   ok (Client n m k)) = ok c ->
  trim (name c) = name c /\ trim (manager c) = manager c
  /\ trim (code c) = code c.
Proof.
  unfold bind. intro H.
  destruct (get entry (fst (fst keys))) as [|v1]; [discriminate|].
  destruct (normalizeCell v1) as [|n] eqn:N1; [discriminate|].
  destruct (get entry (snd (fst keys))) as [|v2]; [discriminate|].
  destruct (normalizeCell v2) as [|m] eqn:N2; [discriminate|].
  destruct (get entry (snd keys)) as [|v3]; [discriminate|].
  destruct (normalizeCell v3) as [|k] eqn:N3; [discriminate|].
  injection H as <-. simpl.
  repeat split; eapply normalizeCell_trimmed; eassumption.
Qed.

Lemma kept_normalised (entries : list client) :
  Forall (fun c => trim (name c) = name c /\ trim (manager c) = manager c
                   /\ trim (code c) = code c) entries ->
  Forall normalised (filter (fun entry => JS.truthy (name entry)) entries).
Proof.
  intro H. apply Forall_forall. intros c Hin.
  apply filter_In in Hin as [Hin Hn].
  rewrite Forall_forall in H. destruct (H c Hin) as (A & B & C).
  repeat split; try assumption. intro Z. rewrite Z in Hn. discriminate.
Qed.

Section Directory.

Context {host : Host}.
Variable key : list byte.

Lemma readClients_normalised (f : file) (records : list client) :
  readClients key f = ok records -> Forall normalised records.
Proof.
  intro R. unfold readClients in R.
  destruct f as [| |raw]; try discriminate.
  destruct (JSON_parse raw) as [payload|]; [|discriminate].
  destruct (decryptPayload key payload) as [|decrypted]; [discriminate|].
  cbn [bind] in R. unfold parseClients in R.
  destruct (JSON_parse (Buffer_toString decrypted)) as [[| | | |parsed|]|];
    try discriminate.
  destruct (mapM normalizeEntry parsed) as [|entries] eqn:M; [discriminate|].
  injection R as <-. apply kept_normalised.
  eapply mapM_Forall; [|exact M].
  intros entry c Hc.
  exact (@entry_trimmed (lit "name", lit "manager", lit "code") entry c Hc).
Qed.

(** Whatever the data file holds and whatever the platform makes of it,
    every record that [decryptClientsPayload] returns has a name and has
    no white space around its name, manager and code. *)
Theorem loaded_records_normalised (f : file) :
  Forall normalised (fst (decryptClientsPayload key f)).
Proof.
  destruct f as [| |raw]; [constructor | constructor |].
  unfold decryptClientsPayload.
  destruct (readClients key (Holds raw)) as [|records] eqn:R;
    cbn [fst]; [constructor|].
  exact (readClients_normalised _ R).
Qed.

Lemma loadClients_directory (w : world) :
  clients (loadClients key w) = fst (decryptClientsPayload key (dataFile w))
  /\ indexed (loadClients key w)
  /\ dataFile (loadClients key w) = dataFile w.
Proof.
  unfold loadClients, indexed.
  destruct (decryptClientsPayload key (dataFile w)) as [[|c cs] pr]; repeat split.
Qed.

Lemma step_directory (w : world) (ev : event) :
  (clients (step key w ev) = clients w /\ fuse (step key w ev) = fuse w)
  \/ (clients (step key w ev) = clients (loadClients key w)
      /\ fuse (step key w ev) = fuse (loadClients key w)).
Proof.
  destruct ev as [msg|]; [|right; split; reflexivity].
  assert (S : forall w', clients (if includes (lit "/start") (textOf msg)
                                  then onStart w' msg else w') = clients w'
                         /\ fuse (if includes (lit "/start") (textOf msg)
                                  then onStart w' msg else w') = fuse w').
  { intro w'. destruct (includes _ _); [|split; reflexivity].
    unfold onStart. destruct (has _ _); split; reflexivity. }
  unfold step. destruct (S (onMessage key w msg)) as [-> ->].
  unfold onMessage.
  destruct (negb (JS.truthy (textOf msg))); [left; split; reflexivity|].
  destruct (negb (has _ _)).
  - left. unfold handleUnauthorizedMessage, addAuthorizedUser.
    destruct (streq _ _); [|split; reflexivity].
    destruct (has _ _); [split; reflexivity|].
    cbn [setAuthorized authFile]. destruct (authFile w); split; reflexivity.
  - destruct (startsWith _ _).
    + destruct (streq _ _); [right | left]; split; reflexivity.
    + left. unfold handleSearchMessage. destruct (negb _); split; reflexivity.
Qed.

(** In every world the bot reaches from a start-up it survives, by
    messages and reloads, the records are normalised and the index is the
    one built over the current collection, absent exactly when the
    collection is empty: the fuzzy search and the fallback always look at
    the same records. *)
Theorem directory_invariant (dir : folder) (data auth : file) (w0 : world)
    (evs : list event) :
  bootstrap key dir (initial data auth) = ok w0 ->
  let w := run key w0 evs in
  Forall normalised (clients w) /\ indexed w.
Proof.
  intro H. unfold bootstrap, bind in H.
  destruct (loadAuthorizedUsers dir (initial data auth)) as [e|w1];
    [discriminate|].
  injection H as <-.
  assert (L : forall w, Forall normalised (clients (loadClients key w))
                        /\ indexed (loadClients key w)).
  { intro w. destruct (loadClients_directory w) as (-> & I & _).
    split; [|exact I]. unfold decryptClientsPayload.
    destruct (dataFile w) as [| |raw]; [constructor | constructor |].
    destruct (readClients key (Holds raw)) as [|records] eqn:R;
      cbn [fst]; [constructor|].
    exact (readClients_normalised _ R). }
  cbv zeta.
  generalize (L w1).
  generalize (loadClients key w1).
  induction evs as [|ev evs IH]; intros w I; [exact I|].
  apply IH. destruct (step_directory w ev) as [[Ec Ef] | [Ec Ef]].
  - unfold indexed. rewrite Ec, Ef. exact I.
  - unfold indexed. rewrite Ec, Ef. apply L.
Qed.

End Directory.

(** ** The reply to a search *)

Lemma join_two (sep p : jsstring) (q : jsstring) (rest : list jsstring) :
  join sep (p :: q :: rest) = p ++ sep ++ join sep (q :: rest).
Proof. reflexivity. Qed.

Lemma join_in (sep p : jsstring) (parts : list jsstring) :
  In p parts -> exists a b, join sep parts = a ++ p ++ b.
Proof.
  induction parts as [|x parts IH]; [intros []|].
  intros [-> | Hin].
  - destruct parts as [|y parts].
    + exists [], []. simpl. now rewrite app_nil_r.
    + exists [], (sep ++ join sep (y :: parts)). now rewrite join_two.
  - destruct parts as [|y parts]; [destruct Hin|].
    destruct (IH Hin) as (a & b & E).
    exists (x ++ sep ++ a), b. rewrite join_two, E.
    now rewrite <- !app_assoc.
Qed.

Lemma formatLines_in {host : Host} (c : client) (items : list client) :
  In c items -> forall k, exists i, In (formatLine i c) (formatLines k items).
Proof.
  induction items as [|x items IH]; [intros []|].
  intros [-> | Hin] k.
  - exists k. now left.
  - destruct (IH Hin (S k)) as (i & Hi). exists i. now right.
Qed.

Section SearchReply.

Context {host : Host}.
Variable key : list byte.

Lemma formatResult_header (c : client) (rest : list client) :
  exists body,
    formatResult (c :: rest) = Text.header ++ [10; 10] ++ body.
Proof.
  unfold formatResult. cbn [length Nat.eqb formatLines].
  rewrite join_two. eexists. reflexivity.
Qed.

Lemma formatResult_empty_iff (items : list client) :
  formatResult items = Text.noMatches <-> items = [].
Proof.
  split; [|now intros ->].
  destruct items as [|c rest]; [reflexivity|]. intro E. exfalso.
  destruct (formatResult_header c rest) as (body & H). rewrite H in E.
  assert (Hh : exists t, Text.header = 1053 :: t)
    by (eexists; vm_compute; reflexivity).
  assert (Hn : exists t, Text.noMatches = 1057 :: t)
    by (eexists; vm_compute; reflexivity).
  destruct Hh as (th & Hh). destruct Hn as (tn & Hn). rewrite Hh, Hn in E.
  discriminate E.
Qed.

Lemma formatResult_shows (c : client) (items : list client) :
  In c items ->
  includes (orDash (name c)) (formatResult items) = true
  /\ includes (orDash (manager c)) (formatResult items) = true
  /\ includes (orDash (code c)) (formatResult items) = true.
Proof.
  intro Hin.
  assert (NE : Nat.eqb (length items) 0 = false)
    by (destruct items; [destruct Hin | reflexivity]).
  unfold formatResult. rewrite NE.
  destruct (formatLines_in c items Hin 0) as (i & Hi).
  destruct (@join_in (Text.newline ++ Text.newline) (formatLine i c)
              (Text.header :: formatLines 0 items) (or_intror Hi))
    as (a & b & ->).
  unfold formatLine.
  set (num := JS.ofN (N.of_nat (i + 1)) ++ lit ". Клиент: ").
  set (l2 := Text.newline ++ lit "   Менеджер: ").
  set (l3 := Text.newline ++ lit "   Код: ").
  repeat split.
  - replace (a ++ (JS.ofN (N.of_nat (i + 1)) ++ lit ". Клиент: "
                   ++ orDash (name c) ++ Text.newline ++ lit "   Менеджер: "
                   ++ orDash (manager c) ++ Text.newline ++ lit "   Код: "
                   ++ orDash (code c)) ++ b)
      with ((a ++ num) ++ orDash (name c)
            ++ (l2 ++ orDash (manager c) ++ l3 ++ orDash (code c) ++ b))
      by (unfold num, l2, l3; now rewrite <- !app_assoc).
    apply includes_app.
  - replace (a ++ (JS.ofN (N.of_nat (i + 1)) ++ lit ". Клиент: "
                   ++ orDash (name c) ++ Text.newline ++ lit "   Менеджер: "
                   ++ orDash (manager c) ++ Text.newline ++ lit "   Код: "
                   ++ orDash (code c)) ++ b)
      with ((a ++ num ++ orDash (name c) ++ l2) ++ orDash (manager c)
            ++ (l3 ++ orDash (code c) ++ b))
      by (unfold num, l2, l3; now rewrite <- !app_assoc).
    apply includes_app.
  - replace (a ++ (JS.ofN (N.of_nat (i + 1)) ++ lit ". Клиент: "
                   ++ orDash (name c) ++ Text.newline ++ lit "   Менеджер: "
                   ++ orDash (manager c) ++ Text.newline ++ lit "   Код: "
                   ++ orDash (code c)) ++ b)
      with ((a ++ num ++ orDash (name c) ++ l2 ++ orDash (manager c) ++ l3)
            ++ orDash (code c) ++ b)
      by (unfold num, l2, l3; now rewrite <- !app_assoc).
    apply includes_app.
Qed.

(** The answer to a search. An authorized chat that sends a text that is
    not blank and begins with no slash gets one message from the message
    handler; it is the text of no matches exactly when the search found
    nothing, and otherwise it begins with the header and holds the name,
    the manager and the code of every record found, a dash standing for
    an empty cell. *)
Theorem search_reply (w : world) (msg : message) :
  has (JS.ofZ (chat_id msg)) (authorizedUsers w) = true ->
  forallb isWhiteSpace (textOf msg) = false ->
  startsWith (lit "/") (textOf msg) = false ->
  exists reply,
    onMessage key w msg = sendMessage w (JS.ofZ (chat_id msg)) reply
    /\ (reply = Text.noMatches <-> findMatches w (textOf msg) = [])
    /\ (findMatches w (textOf msg) <> [] ->
        startsWith (Text.header ++ [10; 10]) reply = true)
    /\ (forall c, In c (findMatches w (textOf msg)) ->
          includes (orDash (name c)) reply = true
          /\ includes (orDash (manager c)) reply = true
          /\ includes (orDash (code c)) reply = true).
Proof.
  intros Hauth Hq Hcmd.
  exists (formatResult (findMatches w (textOf msg))).
  repeat split.
  - assert (Ht : JS.truthy (textOf msg) = true)
      by (destruct (textOf msg); [discriminate Hq | reflexivity]).
    unfold onMessage. rewrite Ht, Hauth, Hcmd. cbn [negb].
    unfold handleSearchMessage. now rewrite (not_blank_truthy _ Hq).
  - apply formatResult_empty_iff.
  - apply formatResult_empty_iff.
  - intro NE. destruct (findMatches w (textOf msg)) as [|c rest]; [contradiction|].
    destruct (formatResult_header c rest) as (body & ->).
    rewrite app_assoc. apply startsWith_app.
  - now apply formatResult_shows.
  - now apply formatResult_shows.
  - now apply formatResult_shows.
Qed.

End SearchReply.

(** ** The exporter and the bot together *)

Lemma encode_length (n : nat) :
  forall bs, (length bs <= n)%nat ->
    length (Base64.encode bs) = (4 * Nat.div (length bs + 2) 3)%nat.
Proof.
  induction n as [n IH] using lt_wf_ind. intros bs Hlen.
  destruct bs as [|a [|b [|c rest]]]; try reflexivity.
  cbn [Base64.encode length].
  rewrite (IH (length rest)); [| simpl in Hlen; lia | lia].
  replace (S (S (S (length rest))) + 2)%nat with (length rest + 2 + 1 * 3)%nat by lia.
  rewrite Nat.div_add by lia. lia.
Qed.

(** What [encryptData] writes under a 32-byte key and a 12-byte nonce: an
    [iv] of 16 characters that decodes to the nonce, a [tag] of 24
    characters that decodes to 16 bytes, and a [data] that decodes to as
    many bytes as the plaintext has, in four characters for every three
    bytes or part of them. Under a key of another length it throws. *)
Theorem encryptData_shape (key iv p : list byte) :
  length iv = 12%nat ->
  (length key = 32%nat ->
   exists ivText dataText tagText,
     Exporter.encryptData key iv p = ok (payloadOf ivText dataText tagText)
     /\ length ivText = 16%nat /\ Base64.decode ivText = iv
     /\ length tagText = 24%nat /\ length (Base64.decode tagText) = 16%nat
     /\ length dataText = (4 * Nat.div (length p + 2) 3)%nat
     /\ length (Base64.decode dataText) = length p)
  /\ (length key <> 32%nat ->
      Exporter.encryptData key iv p = throw InvalidKeyLength).
Proof.
  intro Hiv. split.
  - intro Hk.
    assert (Hne : iv <> []) by (intros ->; discriminate).
    exists (Base64.encode iv), (Base64.encode (GCM.ctr key iv p)),
      (Base64.encode (GCM.tag key iv (GCM.ctr key iv p))).
    split; [now apply encryptData_ok|].
    rewrite !decode_encode, tag_length, ctr_length.
    rewrite !(@encode_length _ _ (Nat.le_refl _)).
    now rewrite Hiv, tag_length, ctr_length.
  - intro Hk. unfold Exporter.encryptData, Crypto.init. rewrite Hiv.
    apply Nat.eqb_neq in Hk. now rewrite Hk.
Qed.

(** The two programs read the key alike: the exporter starts on exactly
    the secrets the bot accepts, and both get the same 32 bytes. *)
Theorem programs_share_the_key (env : environment) (token : jsstring)
    (secretBuffer : list byte) :
  BOT_TOKEN env = Some token -> token <> [] ->
  (configure env = Some (token, secretBuffer)
   <-> exporterSecret env = Some secretBuffer)
  /\ (exporterSecret env = Some secretBuffer -> length secretBuffer = 32%nat).
Proof.
  intros Ht Hne. unfold configure, exporterSecret. rewrite Ht.
  destruct token as [|t token]; [contradiction|]. cbn [JS.truthy negb].
  destruct (DATA_SECRET env) as [secret|]; [|split; [split|]; discriminate].
  destruct (negb (JS.truthy secret)); [split; [split|]; discriminate|].
  destruct (Nat.eqb (length (Base64.decode secret)) 32) eqn:L; cbn [negb];
    [|split; [split|]; discriminate].
  apply Nat.eqb_eq in L. split.
  - split; intro H; injection H as <-; reflexivity.
  - intro H. injection H as <-. exact L.
Qed.

Lemma rowToClient_trimmed (entry : json) (c : client) :
  rowToClient entry = ok c ->
  trim (name c) = name c /\ trim (manager c) = manager c
  /\ trim (code c) = code c.
Proof.
  intro H.
  exact (@entry_trimmed
           (lit "Наименование", lit "Основной менеджер", lit "Код") entry c H).
Qed.

Lemma readClientsFromExcel_normalised (x : excel) (cs : list client) :
  readClientsFromExcel x = Some cs -> Forall normalised cs.
Proof.
  intro H. unfold readClientsFromExcel in H.
  destruct x as [|[|[sheetName rows] rest]]; try discriminate.
  destruct (negb (JS.truthy sheetName)); [discriminate|].
  destruct (mapM rowToClient rows) as [|entries] eqn:M; [discriminate|].
  injection H as <-. apply kept_normalised.
  eapply mapM_Forall; [|exact M]. apply rowToClient_trimmed.
Qed.

(** Every record the exporter takes from the sheet has a name and has no
    white space around its name, manager and code; without a file,
    without a sheet, or with a first sheet whose name is empty, the
    exporter ends. *)
Theorem exported_records_normalised (x : excel) :
  (forall cs, readClientsFromExcel x = Some cs -> Forall normalised cs)
  /\ (x = NoExcelFile \/ x = Workbook [] \/
      (exists rows rest, x = Workbook (([], rows) :: rest)) ->
      readClientsFromExcel x = None).
Proof.
  split.
  - intro cs. apply readClientsFromExcel_normalised.
  - intros [-> | [-> | (rows & rest & ->)]]; reflexivity.
Qed.

Lemma normalizeEntry_toJson (c : client) :
  normalised c -> normalizeEntry (toJson c) = ok c.
Proof.
  intros (_ & Hn & Hm & Hc). destruct c as [n m k]. simpl in *.
  unfold normalizeEntry, toJson. cbn [name manager code].
  change (get (JObj [(lit "name", JStr n); (lit "manager", JStr m);
                     (lit "code", JStr k)]) (lit "name")) with (ok (Some (JStr n))).
  change (get (JObj [(lit "name", JStr n); (lit "manager", JStr m);
                     (lit "code", JStr k)]) (lit "manager")) with (ok (Some (JStr m))).
  change (get (JObj [(lit "name", JStr n); (lit "manager", JStr m);
                     (lit "code", JStr k)]) (lit "code")) with (ok (Some (JStr k))).
  cbn [bind ok normalizeCell toStr]. now rewrite Hn, Hm, Hc.
Qed.

Lemma mapM_normalizeEntry_toJson (cs : list client) :
  Forall normalised cs -> mapM normalizeEntry (map toJson cs) = ok cs.
Proof.
  induction 1 as [|c cs Hc _ IH]; [reflexivity|].
  cbn [map mapM]. now rewrite (normalizeEntry_toJson Hc), IH.
Qed.

Lemma filter_normalised (cs : list client) :
  Forall normalised cs -> filter (fun entry => JS.truthy (name entry)) cs = cs.
Proof.
  induction 1 as [|c cs (Hn & _) _ IH]; [reflexivity|].
  simpl. rewrite IH. destruct (name c); [contradiction | reflexivity].
Qed.

Section ExportLoad.

Context {host : Host} {exportHost : ExportHost}.
Variable key : list byte.

(** What the exporter writes, the bot loads: when the platform reads back
    the two JSON texts that were written (the records, serialised to
    bytes that are not none, and the payload), the records that
    [decryptClientsPayload] returns from the exported file are the
    exported records, in their order. *)
Theorem export_then_load (x : excel) (iv : list byte) (out : file)
    (cs : list client) :
  length key = 32%nat -> length iv = 12%nat -> out <> Denied ->
  readClientsFromExcel x = Some cs ->
  let serialized :=
    Buffer_fromString (JSON_stringifyCompact (JArr (map toJson cs))) in
  let payload :=
    payloadOf (Base64.encode iv) (Base64.encode (GCM.ctr key iv serialized))
      (Base64.encode (GCM.tag key iv (GCM.ctr key iv serialized))) in
  serialized <> [] ->
  JSON_parse (Buffer_toString serialized) = Some (JArr (map toJson cs)) ->
  JSON_parse (JSON_stringify payload) = Some payload ->
  main key x iv out = Some (Holds (JSON_stringify payload))
  /\ decryptClientsPayload key (Holds (JSON_stringify payload)) = (cs, []).
Proof.
  intros Hk Hiv Hout Hx serialized payload Hne Hp1 Hp2.
  assert (Hiv' : iv <> []) by (intros ->; discriminate).
  assert (N : Forall normalised cs)
    by (now apply (readClientsFromExcel_normalised x)).
  split.
  - unfold main. rewrite Hx. fold serialized.
    rewrite (@encryptData_ok key iv serialized Hk Hiv'). fold payload.
    unfold writeEncryptedData. destruct out; [reflexivity | contradiction | reflexivity].
  - unfold decryptClientsPayload, readClients. rewrite Hp2.
    unfold payload.
    rewrite decrypt_exported; try assumption; [|apply tag_length].
    rewrite bytes_eqb_refl. cbn [bind ok]. unfold parseClients.
    rewrite Hp1, (mapM_normalizeEntry_toJson N). cbn [bind ok].
    now rewrite (filter_normalised N).
Qed.

End ExportLoad.

(** ** The watcher *)

Section Debounce.

Context {host : Host}.
Variable key : list byte.
Variable isDataFile : jsstring -> bool.

Lemma changes_pending (names : list (option jsstring)) :
  forall w p pr,
    watchRun key isDataFile (w, Watcher true p pr) (map Changed names)
    = (w, Watcher true (p || existsb (relevant isDataFile) names) pr).
Proof.
  induction names as [|n names IH]; intros w p pr.
  - simpl. now rewrite orb_false_r.
  - cbn [map existsb]. unfold watchRun in *. cbn [fold_left].
    unfold watchStep at 2. cbn [armed negb]. unfold onWatch.
    destruct n as [f|]; cbn [relevant].
    + destruct (JS.truthy f); cbn [negb andb].
      * destruct (isDataFile f); cbn [negb armed printed].
        -- rewrite IH. now rewrite orb_true_r.
        -- rewrite IH. reflexivity.
      * rewrite IH. reflexivity.
    + rewrite IH. reflexivity.
Qed.

(** The watcher coalesces a burst: after any number of events of the
    directory, the timer that elapses reloads the directory once when one
    of the events named the data file and does nothing otherwise, and a
    further expiry does nothing. Without the data directory the watcher
    is not set, the collection is emptied, and nothing ever reloads. *)
Theorem watcher_debounces (w : world) (names : list (option jsstring))
    (evs : list watchEvent) :
  watchRun key isDataFile (scheduleDataReload true w)
           (map Changed names ++ [Elapsed; Elapsed])
  = (if existsb (relevant isDataFile) names
     then (loadClients key w, Watcher true false [LogDetectedUpdate])
     else (w, Watcher true false []))
  /\ watchRun key isDataFile (scheduleDataReload false w) evs
     = (setDirectory w [] (fuse w), Watcher false false [WarnNoDataDirectory]).
Proof.
  split.
  - unfold scheduleDataReload. cbn [negb].
    unfold watchRun. rewrite fold_left_app.
    pose proof (changes_pending names w false []) as C.
    unfold watchRun in C. rewrite C. cbn [orb].
    destruct (existsb (relevant isDataFile) names); reflexivity.
  - unfold scheduleDataReload. cbn [negb].
    induction evs as [|ev evs IH]; [reflexivity|].
    unfold watchRun in *. cbn [fold_left]. exact IH.
Qed.

End Debounce.

(** ** Reloading *)

(** A reload replaces the directory wholesale. After the timer of the
    watcher, and after [/reload] from an authorized chat, the records are
    those of the data file as it is then, whatever was loaded before, with
    the index built over them; the registry is untouched, and only the
    command is answered. *)
Theorem reload_reflects_file {host : Host} (key : list byte) (w : world)
    (msg : message) :
  has (JS.ofZ (chat_id msg)) (authorizedUsers w) = true ->
  textOf msg = lit "/reload" ->
  (clients (step key w ReloadTimer) = fst (decryptClientsPayload key (dataFile w))
   /\ indexed (step key w ReloadTimer)
   /\ authorizedUsers (step key w ReloadTimer) = authorizedUsers w
   /\ sent (step key w ReloadTimer) = sent w)
  /\ (clients (step key w (Incoming msg))
      = fst (decryptClientsPayload key (dataFile w))
      /\ indexed (step key w (Incoming msg))
      /\ authorizedUsers (step key w (Incoming msg)) = authorizedUsers w
      /\ sent (step key w (Incoming msg))
         = sent w ++ [(JS.ofZ (chat_id msg), Text.reloaded)]).
Proof.
  intros Hauth Htext.
  destruct (loadClients_directory key w) as (Ec & Ei & _).
  destruct (loadClients_keeps key w) as (Eu & _ & Es).
  split.
  - cbn [step]. repeat split; assumption.
  - rewrite (reload_step key w msg Hauth Htext).
    unfold indexed. cbn [sendMessage clients fuse authorizedUsers sent].
    rewrite Es. repeat split; assumption.
Qed.

Lemma reload_reflects_file_witness :
  clients (@step Sample.host Sample.key
             (World Sample.six (Some Sample.six) [lit "42"]
                    (Holds (Sample.print [] Sample.payload)) Missing [] [])
             (Incoming (Message 42 (Some (lit "/reload")))))
  = [ Client (lit "Acme Corp") (lit "Ivan") (lit "A1");
      Client (lit "Beta") [] [] ].
Proof.
  destruct (@reload_reflects_file Sample.host Sample.key
              (World Sample.six (Some Sample.six) [lit "42"]
                     (Holds (Sample.print [] Sample.payload)) Missing [] [])
              (Message 42 (Some (lit "/reload"))) eq_refl eq_refl)
    as (_ & E & _).
  rewrite E. vm_compute. reflexivity.
Defined.

(** ** The further properties at work *)

Lemma unauthorized_chat_outcome_witness :
  @step Sample.host Sample.key Sample.world6
    (Incoming (Message 42 (Some (lit "/start"))))
  = sendMessage (sendMessage Sample.world6 (lit "42") Text.accessPrompt)
                (lit "42") Text.hello.
Proof.
  exact (@unauthorized_chat_outcome Sample.host Sample.key Sample.world6
           (Message 42 (Some (lit "/start"))) eq_refl
           (fun E => @nil_cons N 47 (lit "start") (eq_sym E))).
Defined.

Lemma authorized_command_outcome_witness :
  @step Sample.host Sample.key Sample.member
    (Incoming (Message 42 (Some (lit "/start"))))
  = sendMessage (sendMessage Sample.member (lit "42") Text.unknownCommand)
                (lit "42") Text.welcomeBack.
Proof.
  exact (@authorized_command_outcome Sample.host Sample.key Sample.member
           (Message 42 (Some (lit "/start"))) eq_refl eq_refl).
Defined.

Lemma other_chats_untouched_witness :
  has (JS.ofZ 7)
      (authorizedUsers
         (@step Sample.host Sample.key Sample.world6
            (Incoming (Message 42 (Some (lit "22170313"))))))
  = has (JS.ofZ 7) (authorizedUsers Sample.world6).
Proof.
  apply (@other_chats_untouched Sample.host Sample.key Sample.world6
           (Message 42 (Some (lit "22170313"))) 7).
  discriminate.
Defined.

Lemma write_failure_keeps_session_witness :
  @step Sample.host Sample.key (World [] None [] Missing Denied [] [])
    (Incoming (Message 42 (Some (lit " 22170313"))))
  = World [] None [lit "42"] Missing Denied
          [(lit "42", Text.accessGranted)] [ErrorAuthWrite].
Proof.
  exact (@write_failure_keeps_session Sample.host Sample.key
           (World [] None [] Missing Denied [] [])
           (Message 42 (Some (lit " 22170313"))) eq_refl eq_refl eq_refl).
Defined.

Lemma authorization_survives_restart_witness :
  exists w',
    @loadAuthorizedUsers Demo.host Sealed
      (initial Missing
         (authFile
            (@addAuthorizedUser Demo.host
               (World [] None [lit "42"] Missing Missing [] []) (lit "7"))))
    = ok w'
    /\ authorizedUsers w' = [lit "42"; lit "7"].
Proof.
  refine (@authorization_survives_restart Demo.host Sealed
            (World [] None [lit "42"] Missing Missing [] []) (lit "7") Missing
            _ _ eq_refl _ _).
  - discriminate.
  - constructor; [intros [] | constructor].
  - discriminate.
  - vm_compute. reflexivity.
Defined.

Lemma loadAuthorizedUsers_outcome_witness :
  @loadAuthorizedUsers Sample.host Sealed (initial Missing Missing)
  = throw IOError.
Proof.
  apply (@loadAuthorizedUsers_outcome Sample.host Sealed (initial Missing Missing)).
  right. split; reflexivity.
Defined.

Lemma registry_never_duplicates_witness :
  NoDup
    (authorizedUsers
       (@run Sample.host Sample.key
          (World [] None [] Missing (Holds (lit "[]")) []
                 [WarnDataFileNotFound; WarnListEmpty])
          [ Incoming (Message 42 (Some (lit "22170313")));
            Incoming (Message 42 (Some (lit "22170313")));
            Incoming (Message 7 (Some (lit " 22170313"))) ])).
Proof.
  apply (@registry_never_duplicates Sample.host Sample.key Open Missing Missing).
  reflexivity.
Defined.

Lemma directory_invariant_witness :
  let w :=
    @run Sample.host Sample.key
      (@loadClients Sample.host Sample.key
         (World [] None [] (Holds (Sample.print [] Sample.payload))
                (Holds (lit "[]")) [] []))
      [ Incoming (Message 42 (Some (lit "22170313"))); ReloadTimer ] in
  Forall normalised (clients w) /\ indexed w.
Proof.
  apply (@directory_invariant Sample.host Sample.key Open
           (Holds (Sample.print [] Sample.payload)) Missing).
  reflexivity.
Defined.

Lemma search_reply_witness :
  exists reply,
    @onMessage Sample.host Sample.key Sample.member
      (Message 42 (Some (lit "A3")))
    = sendMessage Sample.member (lit "42") reply
    /\ includes (lit "a3") reply = true.
Proof.
  destruct (@search_reply Sample.host Sample.key Sample.member
              (Message 42 (Some (lit "A3"))) eq_refl eq_refl eq_refl)
    as (reply & E & _ & _ & S).
  exists reply. split; [exact E|].
  apply (S (Client (lit "a3") [] [])).
  vm_compute. tauto.
Defined.

Lemma encryptData_shape_witness :
  exists ivText dataText tagText,
    Exporter.encryptData Sample.key Sample.nonce Sample.plaintext
    = ok (payloadOf ivText dataText tagText)
    /\ length ivText = 16%nat /\ length tagText = 24%nat.
Proof.
  destruct (@encryptData_shape Sample.key Sample.nonce Sample.plaintext eq_refl)
    as [S _].
  destruct (S eq_refl) as (a & b & c & E & La & _ & Lc & _).
  exists a, b, c. repeat split; assumption.
Defined.

Lemma programs_share_the_key_witness :
  exporterSecret Sample.env = Some Sample.key.
Proof.
  destruct (@programs_share_the_key Sample.env (lit "123456:token") Sample.key
              eq_refl) as [[H _] _].
  - discriminate.
  - apply H. vm_compute. reflexivity.
Defined.

Lemma export_then_load_witness :
  @main Demo.host Demo.exportHost Sample.key Demo.book Sample.nonce Missing
  = Some (Holds (Sample.print [] Demo.payload))
  /\ @decryptClientsPayload Demo.host Sample.key
       (Holds (Sample.print [] Demo.payload))
     = (Demo.exported, []).
Proof.
  refine (@export_then_load Demo.host Demo.exportHost Sample.key Demo.book
            Sample.nonce Missing Demo.exported eq_refl eq_refl _ _ _ _ _).
  - discriminate.
  - vm_compute. reflexivity.
  - vm_compute. discriminate.
  - vm_compute. reflexivity.
  - vm_compute. reflexivity.
Defined.

(** One sheet, exported and loaded, with a burst of events on the data
    directory in between. *)
Example watcher_session :
  fst (@watchRun Demo.host Sample.key Demo.isDataFile
         (@scheduleDataReload true
            (initial (Holds (Sample.print [] Demo.payload)) Missing))
         [ Changed (Some (lit "notes.txt")); Elapsed;
           Changed (Some (lit "encrypted_clients.json"));
           Changed None;
           Changed (Some (lit "encrypted_clients.json"));
           Elapsed; Elapsed ])
  = @loadClients Demo.host Sample.key
      (initial (Holds (Sample.print [] Demo.payload)) Missing).
Proof. vm_compute. reflexivity. Qed.
